(** * CaucaVR: the entity-component simulation of [functions.js]

    A shallow embedding of the four ecsy systems of the panorama viewer
    ([InstructionSystem], [CalibrationSystem], [ButtonSystem],
    [FingerInputSystem]), of the world driver that runs them once per
    rendered frame, and of the scene navigation callbacks.

    JavaScript numbers are IEEE 754 binary64 values: they are modelled by
    Rocq's primitive floats, so every arithmetic operation and comparison
    below is the one the program performs, rounding and NaN included.

    Conventions:
    - an entity is identified by its index in the list of entities, in
      creation order; the systems never create or destroy entities;
    - the result array of a query lists the entities that carry its
      components, in creation order, and is live: an entity that loses a
      component of the query leaves the array at once, also in the middle
      of an iteration over it;
    - what a frame reads from the collaborators the simulation does not own
      (the XR session, the camera pose, the controllers' visibility, the
      intersection tests and fingertip positions of the hands) is an input of
      the frame, of any value;
    - what a frame does to them (playing a sound, calling an action, loading
      a texture) is appended to a trace;
    - reading a field of a component an entity does not carry throws a
      [TypeError] that escapes the frame: the step then has no result
      ([None]). *)

From Stdlib Require Import Floats ZArith Lia.
From stdpp Require Import base option list strings.

Set Warnings "-inexact-float".
Set Default Proof Using "Type".

(** ** JavaScript values the systems rely on *)

Module JS.

Local Open Scope float_scope.

(** [ToNumber] of a value that is either a number or [null]
    (the schema default of [restingY], [surfaceY], [fullPressDistance]):
    [null] converts to [+0]. *)
Definition ToNumber (v : option float) : float :=
  match v with
  | Some n => n
  | None => 0
  end.

(** [Number(String(n))]: printing a number and reading it back gives the
    same number, except that [-0] prints as ["0"]. *)
Definition Number_of_String_of (n : float) : float :=
  if is_zero n then 0 else n.

(** [ToNumber] of an array of numbers goes through [Array.prototype.join]:
    the empty array prints as [""] (which reads as [0]), a one-element
    array prints as its element, and a longer array prints with commas,
    which is not a numeric literal. *)
Definition ToNumber_Array (a : list float) : float :=
  match a with
  | [] => 0
  | [n] => Number_of_String_of n
  | _ :: _ :: _ => nan
  end.

(** [Math.max(v1, ..., vn)] on arguments already converted to numbers:
    [-Infinity] without arguments, [NaN] as soon as one argument is [NaN],
    and [+0] counts as larger than [-0]. *)
Definition max2 (a b : float) : float :=
  if is_nan a || is_nan b then nan
  else if a <? b then b
  else if b <? a then a
  else if is_zero a && is_zero b then (if get_sign a then b else a)
  else a.

Definition Math_max (args : list float) : float :=
  fold_left max2 args neg_infinity.

(** The remainder operator [%] on integer-valued numbers: the result takes
    the sign of the dividend. *)
Definition rem (a b : Z) : Z := Z.rem a b.

End JS.

(** ** Components *)

(** [Button.schema] comment: button states are
    [resting, pressed, fully_pressed, recovering]. *)
Inductive ButtonState : Set :=
| resting
| pressed
| fully_pressed
| recovering.

#[global] Instance ButtonState_eq_dec : EqDecision ButtonState.
Proof. solve_decision. Defined.

(** The two [THREE.Audio] objects [ButtonSystem] creates. *)
Inductive Audio : Set :=
| buttonPressSound
| buttonReleaseSound.

(** The callbacks bound to [Button.action]: the schema default
    [() => { }] and the four closures of [init]. *)
Inductive Action : Set :=
| noAction
| obAction
| pbAction
| rbAction
| ebAction.

Record Vector3 : Set := mkVector3 {
  vx : float;
  vy : float;
  vz : float
}.

(** The fields of a [THREE.Object3D] the systems read or write. *)
Record Mesh : Set := mkMesh {
  position : Vector3;
  visible : bool
}.

Record Button : Set := mkButton {
  currState : ButtonState;
  prevState : ButtonState;
  pressSound : option Audio;
  releaseSound : option Audio;
  restingY : option float;
  surfaceY : option float;
  recoverySpeed : float;
  fullPressDistance : option float;
  action : Action
}.

Record OffsetFromCamera : Set := mkOffset {
  off_x : float;
  off_y : float;
  off_z : float
}.

(** An entity with the components the program registers. [Object3D] holds
    a reference to the entity's own spatial node (the relationship is
    one-to-one), so the node is stored with the entity. The tag components
    carry no data. *)
Record Entity : Set := mkEntity {
  cObject3D : option Mesh;
  cButton : option Button;
  cPressable : bool;
  cHandsInstructionText : bool;
  cOffsetFromCamera : option OffsetFromCamera;
  cNeedCalibration : bool
}.

(** Field updates. *)
Definition set_y (n : float) (o : Mesh) : Mesh :=
  mkMesh (mkVector3 (vx (position o)) n (vz (position o))) (visible o).

Definition set_position (p : Vector3) (o : Mesh) : Mesh :=
  mkMesh p (visible o).

Definition set_visible (v : bool) (o : Mesh) : Mesh :=
  mkMesh (position o) v.

Definition set_currState (s : ButtonState) (b : Button) : Button :=
  mkButton s (prevState b) (pressSound b) (releaseSound b) (restingY b)
           (surfaceY b) (recoverySpeed b) (fullPressDistance b) (action b).

Definition set_prevState (s : ButtonState) (b : Button) : Button :=
  mkButton (currState b) s (pressSound b) (releaseSound b) (restingY b)
           (surfaceY b) (recoverySpeed b) (fullPressDistance b) (action b).

Definition set_pressSound (a : option Audio) (b : Button) : Button :=
  mkButton (currState b) (prevState b) a (releaseSound b) (restingY b)
           (surfaceY b) (recoverySpeed b) (fullPressDistance b) (action b).

Definition set_releaseSound (a : option Audio) (b : Button) : Button :=
  mkButton (currState b) (prevState b) (pressSound b) a (restingY b)
           (surfaceY b) (recoverySpeed b) (fullPressDistance b) (action b).

Definition set_restingY (r : option float) (b : Button) : Button :=
  mkButton (currState b) (prevState b) (pressSound b) (releaseSound b) r
           (surfaceY b) (recoverySpeed b) (fullPressDistance b) (action b).

Definition set_Object3D (o : Mesh) (e : Entity) : Entity :=
  mkEntity (Some o) (cButton e) (cPressable e) (cHandsInstructionText e)
           (cOffsetFromCamera e) (cNeedCalibration e).

Definition set_Button (b : Button) (e : Entity) : Entity :=
  mkEntity (cObject3D e) (Some b) (cPressable e) (cHandsInstructionText e)
           (cOffsetFromCamera e) (cNeedCalibration e).

Definition removeComponent_NeedCalibration (e : Entity) : Entity :=
  mkEntity (cObject3D e) (cButton e) (cPressable e) (cHandsInstructionText e)
           (cOffsetFromCamera e) false.

(** ** What a frame reads from the outside *)

(** One reading of a hand against one button: [None] when
    [hand && hand.intersectBoxObject( object )] is falsy, and [Some ly] when
    it holds, [ly] being the [y] of
    [object.worldToLocal( hand.getPointerPosition() )]. *)
Definition HandReading : Set := option float.

Record Frame : Type := mkFrame {
  delta : float;
  (** is [renderer.xr.getSession()] truthy *)
  session : bool;
  (** [renderer.xr.getCamera().position] *)
  xrCamera : Vector3;
  (** [controller.visible] for each of [InstructionSystem]'s controllers *)
  controllers : list bool;
  (** the readings of [FingerInputSystem]'s hands, in order, against the
      object of the k-th entity *)
  hands : nat -> list HandReading
}.

(** ** The world: entities, what the callbacks reach outside of them, systems *)

(** The side effects a frame has on the external collaborators, in the order
    they happen. The number is the index of the entity whose callback is
    running. *)
Inductive Event : Set :=
| PressSoundPlay (k : nat) (a : Audio)
| ReleaseSoundPlay (k : nat) (a : Audio)
| ActionCall (k : nat) (f : Action)
| TextureLoad (url : option string)
| ExitTimeout.

Inductive System : Set :=
| InstructionSystem
| CalibrationSystem
| ButtonSystem
| FingerInputSystem.

#[global] Instance System_eq_dec : EqDecision System.
Proof. solve_decision. Defined.

(** A registered system: ecsy runs the systems by ascending [priority] and,
    among equal priorities, in the order of registration. *)
Record Registered : Set := mkRegistered {
  system : System;
  priority : Z;
  order : nat
}.

(** The module-level variables the action callbacks write. *)
Record Globals : Set := mkGlobals {
  currentSceneIndex : Z;
  exitText_visible : bool;
  trace : list Event
}.

Record World : Set := mkWorld {
  entities : list Entity;
  executeSystems : list Registered;
  (** [ButtonSystem]'s field [soundAdded] *)
  soundAdded : bool;
  globals : Globals
}.

Definition emit (ev : Event) (g : Globals) : Globals :=
  mkGlobals (currentSceneIndex g) (exitText_visible g) (trace g ++ [ev]).

Definition set_currentSceneIndex (i : Z) (g : Globals) : Globals :=
  mkGlobals i (exitText_visible g) (trace g).

Definition set_exitText_visible (v : bool) (g : Globals) : Globals :=
  mkGlobals (currentSceneIndex g) v (trace g).

(** ** Scene navigation *)

Definition scenes : list string :=
  [ "./images/centrocaldas.jpg";
    "./images/catedral.jpg";
    "./images/catt.jpg";
    "./images/bancolombia.jpg";
    "./images/bancobogota.jpg";
    "./images/juanvaldez.jpg" ]%string.

(** [scenes[index]], [undefined] out of range. *)
Definition scenes_at (index : Z) : option string :=
  if (index <? 0)%Z then None else scenes !! Z.to_nat index.

Definition loadScene (index : Z) (g : Globals) : Globals :=
  emit (TextureLoad (scenes_at index)) g.

Definition nextScene (g : Globals) : Globals :=
  let g := set_currentSceneIndex
             (JS.rem (currentSceneIndex g + 1) (Z.of_nat (length scenes))) g in
  loadScene (currentSceneIndex g) g.

Definition prevScene (g : Globals) : Globals :=
  let g := set_currentSceneIndex
             (JS.rem (currentSceneIndex g - 1 + Z.of_nat (length scenes))
                     (Z.of_nat (length scenes))) g in
  loadScene (currentSceneIndex g) g.

(** [button.action()]. The timer [ebAction] starts fires outside of the
    frame loop; starting it is recorded, its expiry is not simulated. *)
Definition call (f : Action) (g : Globals) : Globals :=
  match f with
  | noAction => g
  | obAction => nextScene g
  | pbAction => prevScene g
  | rbAction => let g := set_currentSceneIndex 0 g in
                loadScene (currentSceneIndex g) g
  | ebAction => emit ExitTimeout (set_exitText_visible true g)
  end.

(** ** Iterating over a query *)

(** [this.queries.q.results.forEach( callback )]: the callback runs on the
    entities that carry the components of the query, in creation order; it
    mutates the entity it is given and the globals. [None] is an exception
    that escapes the frame. This is the iteration of the three systems whose
    callback neither adds nor removes a component: the array [results] is
    the same from the first call of the callback to the last. *)
Section ForEach.

Variable query : Entity -> bool.
Variable callback : nat -> Entity -> Globals -> option (Entity * Globals).

Fixpoint forEach_from (k : nat) (es : list Entity) (g : Globals)
  : option (list Entity * Globals) :=
  match es with
  | [] => Some ([], g)
  | e :: es =>
      r ← (if query e then callback k e g else Some (e, g));
      rs ← forEach_from (S k) es r.2;
      Some (r.1 :: rs.1, rs.2)
  end.

Definition forEach (w : World) : option World :=
  r ← forEach_from 0 (entities w) (globals w);
  Some (mkWorld r.1 (executeSystems w) (soundAdded w) r.2).

(** The same iteration when the callback can take the entity it is given
    out of the query. [results] is the live array of the query: as soon as a
    component of the query is removed from an entity, the entity is spliced
    out of [results], while [forEach] goes on to the next index. The
    entities behind the one removed have moved down by one, so the entity
    that follows it in the query is passed over in this iteration, and the
    iteration ends when the index runs past the shortened array. [shifted]
    tells that the entity visited last has left the query; an entity that is
    passed over stays in the query, so the one after it is visited. *)
Fixpoint forEach_live_from (shifted : bool) (k : nat) (es : list Entity)
         (g : Globals) : option (list Entity * Globals) :=
  match es with
  | [] => Some ([], g)
  | e :: es =>
      if query e then
        if shifted then
          rs ← forEach_live_from false (S k) es g;
          Some (e :: rs.1, rs.2)
        else
          r ← callback k e g;
          rs ← forEach_live_from (negb (query r.1)) (S k) es r.2;
          Some (r.1 :: rs.1, rs.2)
      else
        rs ← forEach_live_from shifted (S k) es g;
        Some (e :: rs.1, rs.2)
  end.

Definition forEach_live (w : World) : option World :=
  r ← forEach_live_from false 0 (entities w) (globals w);
  Some (mkWorld r.1 (executeSystems w) (soundAdded w) r.2).

End ForEach.

(** A callback that only touches the entity it is given. *)
Definition pure_callback (h : nat → Entity → option Entity)
  : nat → Entity → Globals → option (Entity * Globals) :=
  λ k e g, e' ← h k e; Some (e', g).

Definition has_Button (e : Entity) : bool := bool_decide (is_Some (cButton e)).

(** ** ButtonSystem *)

Module ButtonSystem.

Definition on_entity (newPressSound newReleaseSound : option Audio)
           (k : nat) (e : Entity) (g : Globals) : option (Entity * Globals) :=
  button ← cButton e;
  buttonMesh ← cObject3D e;
  (* populate restingY *)
  let button :=
    match restingY button with
    | None => set_restingY (Some (vy (position buttonMesh))) button
    | Some _ => button
    end in
  let button :=
    match newPressSound with
    | Some a => set_pressSound (Some a) button
    | None => button
    end in
  let button :=
    match newReleaseSound with
    | Some a => set_releaseSound (Some a) button
    | None => button
    end in
  let g :=
    if bool_decide (currState button = fully_pressed)
       && negb (bool_decide (prevState button = fully_pressed))
    then
      let g := match pressSound button with
               | Some a => emit (PressSoundPlay k a) g
               | None => g
               end in
      call (action button) (emit (ActionCall k (action button)) g)
    else g in
  let g :=
    if bool_decide (currState button = recovering)
       && negb (bool_decide (prevState button = recovering))
    then
      match releaseSound button with
      | Some a => emit (ReleaseSoundPlay k a) g
      | None => g
      end
    else g in
  (* preserve prevState, clear currState *)
  let button := set_prevState (currState button) button in
  let button := set_currState resting button in
  Some (set_Button button e, g).

Definition execute (f : Frame) (w : World) : option World :=
  let create := session f && negb (soundAdded w) in
  let newPressSound := if create then Some buttonPressSound else None in
  let newReleaseSound := if create then Some buttonReleaseSound else None in
  let w := mkWorld (entities w) (executeSystems w)
                   (if create then true else soundAdded w) (globals w) in
  forEach has_Button (on_entity newPressSound newReleaseSound) w.

End ButtonSystem.

(** ** FingerInputSystem *)

Module FingerInputSystem.

Local Open Scope float_scope.

(** The [this.hands.forEach] loop: one distance pushed per intersecting hand. *)
Definition pressingDistances (button : Button) (hs : list HandReading)
  : list float :=
  fold_left
    (fun acc hand =>
       match hand with
       | Some ly => acc ++ [JS.ToNumber (surfaceY button) - ly]
       | None => acc
       end)
    hs [].

(** [Math.max( pressingDistances )]: the array is passed as the single
    argument, so it is first converted to a number. *)
Definition pressingDistance (ds : list float) : float :=
  JS.Math_max [JS.ToNumber_Array ds].

(** The body of the [forEach] over the pressable entities, on the button
    and the object of one entity. *)
Definition press (dt : float) (hs : list HandReading)
           (button : Button) (object : Mesh) : Button * Mesh :=
  let ds := pressingDistances button hs in
  if bool_decide (length ds = 0%nat) then
    if vy (position object) <? JS.ToNumber (restingY button) then
      (set_currState recovering button,
       set_y (vy (position object) + recoverySpeed button * dt) object)
    else
      (set_currState resting button,
       set_y (JS.ToNumber (restingY button)) object)
  else
    let button := set_currState pressed button in
    let d := pressingDistance ds in
    let object := if 0 <? d then set_y (vy (position object) - d) object
                  else object in
    if vy (position object)
         <=? JS.ToNumber (restingY button) - JS.ToNumber (fullPressDistance button)
    then
      (set_currState fully_pressed button,
       set_y (JS.ToNumber (restingY button)
              - JS.ToNumber (fullPressDistance button)) object)
    else (button, object).

(** One pressable entity. Reading a field of a missing component is a
    [TypeError]: [None]. *)
Definition on_entity (dt : float) (hs : list HandReading) (e : Entity)
  : option Entity :=
  button ← cButton e;
  object ← cObject3D e;
  let '(button, object) := press dt hs button object in
  Some (set_Button button (set_Object3D object e)).

Definition execute (f : Frame) (w : World) : option World :=
  forEach cPressable
          (pure_callback (λ k e, on_entity (delta f) (hands f k) e))
          w.

End FingerInputSystem.

(** ** InstructionSystem *)

Module InstructionSystem.

(** The loop over the controllers. *)
Definition anyVisible (cs : list bool) : bool :=
  fold_left
    (fun (visible controller : bool) => if controller then true else visible)
    cs false.

Definition on_entity (v : bool) (e : Entity) : option Entity :=
  object ← cObject3D e;
  Some (set_Object3D (set_visible v object) e).

Definition execute (f : Frame) (w : World) : option World :=
  let visible := anyVisible (controllers f) in
  forEach cHandsInstructionText
          (pure_callback (λ _ e, on_entity visible e))
          w.

End InstructionSystem.

(** ** CalibrationSystem *)

Module CalibrationSystem.

Local Open Scope float_scope.

Definition on_entity (f : Frame) (e : Entity) : option Entity :=
  if session f then
    offset ← cOffsetFromCamera e;
    object ← cObject3D e;
    let p := mkVector3 (vx (xrCamera f) + off_x offset)
                       (vy (xrCamera f) + off_y offset)
                       (vz (xrCamera f) + off_z offset) in
    Some (removeComponent_NeedCalibration
            (set_Object3D (set_position p object) e))
  else Some e.

(** The callback removes [NeedCalibration], the component of the query it
    iterates over: the iteration is the live one. *)
Definition execute (f : Frame) (w : World) : option World :=
  forEach_live cNeedCalibration
               (pure_callback (λ _ e, on_entity f e))
               w.

End CalibrationSystem.

(** ** The world driver *)

(** [a] is executed before [b]. *)
Definition runs_before (a b : Registered) : bool :=
  (priority a <? priority b)%Z
  || ((priority a =? priority b)%Z && (order a <? order b)%nat).

Fixpoint insert_sorted (r : Registered) (l : list Registered)
  : list Registered :=
  match l with
  | [] => [r]
  | r' :: l' => if runs_before r r' then r :: l else r' :: insert_sorted r l'
  end.

Definition sortSystems (l : list Registered) : list Registered :=
  foldr insert_sorted [] l.

(** [world.registerSystem( S, attributes )]: a system that is already
    registered is left alone; a new one is appended and the list sorted.
    [init] passes no [priority] attribute, which leaves it at [0]. *)
Definition registerSystem (s : System) (prio : Z) (w : World) : World :=
  if bool_decide (s ∈ system <$> executeSystems w) then w
  else
    let r := mkRegistered s prio (length (executeSystems w)) in
    mkWorld (entities w) (sortSystems (executeSystems w ++ [r]))
            (soundAdded w) (globals w).

Definition createEntity (e : Entity) (w : World) : World :=
  mkWorld (entities w ++ [e]) (executeSystems w) (soundAdded w) (globals w).

Definition execute_system (s : System) (f : Frame) (w : World) : option World :=
  match s with
  | InstructionSystem => InstructionSystem.execute f w
  | CalibrationSystem => CalibrationSystem.execute f w
  | ButtonSystem => ButtonSystem.execute f w
  | FingerInputSystem => FingerInputSystem.execute f w
  end.

Fixpoint execute_systems (l : list Registered) (f : Frame) (w : World)
  : option World :=
  match l with
  | [] => Some w
  | r :: l => w ← execute_system (system r) f w; execute_systems l f w
  end.

(** [world.execute( delta, elapsedTime )] *)
Definition World_execute (f : Frame) (w : World) : option World :=
  execute_systems (executeSystems w) f w.

(** The systems of a frame in the order they ran. *)
Definition execution_order (w : World) : list System :=
  system <$> executeSystems w.

(** The animation loop over a sequence of frames. *)
Fixpoint animate (fs : list Frame) (w : World) : option World :=
  match fs with
  | [] => Some w
  | f :: fs => w ← World_execute f w; animate fs w
  end.

(** ** The world [init] builds *)

Module Init.

Local Open Scope float_scope.

Definition makeButtonMesh (px py pz : float) : Mesh :=
  mkMesh (mkVector3 px py pz) true.

Definition consoleMesh : Mesh := mkMesh (mkVector3 0 1 (-0.3)) true.
Definition nextButton : Mesh := makeButtonMesh (-0.15) 0.04 0.
Definition backButton : Mesh := makeButtonMesh (-0.05) 0.04 0.
Definition homeButton : Mesh := makeButtonMesh 0.05 0.04 0.
Definition exitButton : Mesh := makeButtonMesh 0.15 0.04 0.
Definition instructionText : Mesh := mkMesh (mkVector3 0 1.6 (-0.6)) true.

(** A [Button] component from the schema defaults and the given props. *)
Definition newButton (f : Action) (surface : float) (speed : float)
           (fullPress : float) : Button :=
  mkButton resting resting None None None (Some surface) speed
           (Some fullPress) f.

Definition csEntity : Entity :=
  mkEntity (Some consoleMesh) None false false
           (Some (mkOffset 0 (-0.4) (-0.3))) true.

Definition buttonEntity (m : Mesh) (b : Button) : Entity :=
  mkEntity (Some m) (Some b) true false None false.

Definition obEntity : Entity :=
  buttonEntity nextButton (newButton obAction 0.05 0.4 0.02).
Definition pbEntity : Entity :=
  buttonEntity backButton (newButton pbAction 0.05 0.4 0.02).
Definition rbEntity : Entity :=
  buttonEntity homeButton (newButton rbAction 0.05 0.4 0.02).
Definition ebEntity : Entity :=
  buttonEntity exitButton (newButton ebAction 0.05 0.2 0.03).

Definition itEntity : Entity :=
  mkEntity (Some instructionText) None false true None false.

Definition emptyWorld : World :=
  mkWorld [] [] false (mkGlobals 0 false []).

(** The world after [init]: the systems registered and the entities created
    in the order of the source; [loadScene(currentSceneIndex)] has run. *)
Definition world : World :=
  let w := mkWorld [] [] false (loadScene 0 (mkGlobals 0 false [])) in
  let w := registerSystem InstructionSystem 0 w in
  let w := registerSystem CalibrationSystem 0 w in
  let w := registerSystem ButtonSystem 0 w in
  let w := registerSystem FingerInputSystem 0 w in
  let w := createEntity csEntity w in
  let w := createEntity obEntity w in
  let w := createEntity pbEntity w in
  let w := createEntity rbEntity w in
  let w := createEntity ebEntity w in
  createEntity itEntity w.

End Init.

(** ** Observations and reference definitions used in the statements *)

Definition button_at (k : nat) (w : World) : option Button :=
  e ← entities w !! k; cButton e.

(** The state [ButtonSystem] reads for the k-th entity in each frame of [fs]:
    the button's [currState] when the frame starts. *)
Fixpoint seen (k : nat) (fs : list Frame) (w : World)
  : list (option ButtonState) :=
  match fs with
  | [] => []
  | f :: fs =>
      (currState <$> button_at k w)
        :: match World_execute f w with
           | Some w' => seen k fs w'
           | None => []
           end
  end.

(** The number of maximal contiguous runs of [a] in [l]: a run is counted at
    its last element. *)
Fixpoint runs {A} `{EqDecision A} (a : A) (l : list A) : nat :=
  match l with
  | [] => 0
  | x :: l' =>
      if decide (x = a) then
        match l' with
        | [] => 1
        | y :: _ => if decide (y = a) then runs a l' else S (runs a l')
        end
      else runs a l'
  end.

(** The number of positions of [l] that hold [a] while the position before
    does not; [p] stands before the first position. *)
Fixpoint rising_edges {A} `{EqDecision A} (a : A) (p : A) (l : list A) : nat :=
  match l with
  | [] => 0
  | x :: l' =>
      (if decide (x = a ∧ p ≠ a) then 1 else 0) + rising_edges a x l'
  end.

Definition is_ActionCall (k : nat) (ev : Event) : bool :=
  match ev with
  | ActionCall k' _ => bool_decide (k' = k)
  | _ => false
  end.

Definition is_ReleaseSoundPlay (k : nat) (ev : Event) : bool :=
  match ev with
  | ReleaseSoundPlay k' _ => bool_decide (k' = k)
  | _ => false
  end.

Definition count_events (p : Event → bool) (tr : list Event) : nat :=
  length (filter (λ ev, p ev = true) tr).

(** How many events satisfying [p] the world has produced so far. *)
Definition count (p : Event → bool) (w : World) : nat :=
  count_events p (trace (globals w)).

(** The button entered state [s] since [ButtonSystem] last looked. *)
Definition rising (s : ButtonState) (b : Button) : bool :=
  bool_decide (currState b = s) && negb (bool_decide (prevState b = s)).

(** An entity on which no callback reads a field of a missing component. *)
Definition well_formed (e : Entity) : bool :=
  (bool_decide (is_Some (cObject3D e))
   || negb (has_Button e || cPressable e || cHandsInstructionText e
            || cNeedCalibration e))
  && (has_Button e || negb (cPressable e))
  && (bool_decide (is_Some (cOffsetFromCamera e)) || negb (cNeedCalibration e)).

Definition all_well_formed (w : World) : Prop :=
  Forall (λ e, well_formed e = true) (entities w).

(** The world is the one [init] wires: the four systems, registered in the
    order of the source; every entity well formed. *)
Definition wired (w : World) : Prop :=
  executeSystems w = executeSystems Init.world ∧ all_well_formed w.

(** How many of the first [k] entities carry the calibration marker. *)
Fixpoint marked_before (k : nat) (es : list Entity) : nat :=
  match k, es with
  | S k, e :: es => (if cNeedCalibration e then 1 else 0) + marked_before k es
  | _, _ => 0
  end.

(** In a frame with a session [CalibrationSystem] takes every entity it
    visits out of its query, so it passes over every second entity of the
    query: it reaches the k-th entity when the marked entities before it
    are even in number. *)
Definition reached (k : nat) (es : list Entity) : bool :=
  Nat.even (marked_before k es).

(** The callback of [CalibrationSystem] on the entities it reaches. *)
Definition calibrate_reached (f : Frame) (es : list Entity) (k : nat)
           (e : Entity) : option Entity :=
  if reached k es then CalibrationSystem.on_entity f e else Some e.


(** The frame as the specification words it: calibration first, then the
    buttons, then the finger input, the instructions last. *)
Definition spec_frame (f : Frame) (w : World) : option World :=
  w ← CalibrationSystem.execute f w;
  w ← ButtonSystem.execute f w;
  w ← FingerInputSystem.execute f w;
  InstructionSystem.execute f w.

Definition spec_order : list System :=
  [CalibrationSystem; ButtonSystem; FingerInputSystem; InstructionSystem].

(** The true maximum of the collected distances, as the specification words
    the tie-break between several hands. *)
Definition deepest (ds : list float) : float :=
  JS.Math_max ds.

(** A no-contact frame for every entity: no hand intersects anything. *)
Definition no_contact (hs : list HandReading) : Prop :=
  Forall (λ h, h = None) hs.

Definition entity_y (e : Entity) : option float :=
  (λ o, vy (position o)) <$> cObject3D e.

Definition entity_state (e : Entity) : option ButtonState :=
  currState <$> cButton e.

(** The height below which a button counts as fully pressed. *)
Definition fullPressY (b : Button) : float :=
  (JS.ToNumber (restingY b) - JS.ToNumber (fullPressDistance b))%float.

(** ** Scenarios *)

Module Scenario.

Local Open Scope float_scope.

(** The "Next" button of [init] once [ButtonSystem] has captured its
    resting height [0.04]. *)
Definition nextButton : Button :=
  set_restingY (Some 0.04) (Init.newButton obAction 0.05 0.4 0.02).

(** ... at rest, *)
Definition atRest : Entity :=
  Init.buttonEntity Init.nextButton nextButton.

(** ... and pushed all the way down, [fullPressDistance] below rest. *)
Definition pushedDown : Entity :=
  Init.buttonEntity (set_y 0.02 Init.nextButton) nextButton.

(** ... pushed down with its release sound bound. *)
Definition pushedDown_bound : Entity :=
  Init.buttonEntity (set_y 0.02 Init.nextButton)
                    (set_releaseSound (Some buttonReleaseSound) nextButton).

(** Two hands on the button at once: their fingertips at local heights
    [0.04] and [0.02], hence at pressing distances [0.05 - 0.04] and
    [0.05 - 0.02] from the surface. *)
Definition twoHands : list HandReading := [Some 0.04; Some 0.02].

Definition noHands : list HandReading := [None; None].

(** A slow frame: a tenth of a second. *)
Definition slowFrame : float := 0.1.

(** A frame at 60 Hz with the session running, the head at [1.6], both
    controllers visible, and the hand readings [hs] against the k-th
    entity only. *)
Definition frame_on (k : nat) (hs : list HandReading) : Frame :=
  mkFrame 0.016 true (mkVector3 0 1.6 0) [true; true]
          (λ j, if bool_decide (j = k) then hs else noHands).

(** ... and with no hand on anything. *)
Definition idle : Frame :=
  mkFrame 0.016 true (mkVector3 0 1.6 0) [true; true] (λ _, noHands).

(** A frame before the session starts: nothing is tracked. *)
Definition untracked : Frame :=
  mkFrame 0.016 false (mkVector3 0 0 0) [false; false] (λ _, noHands).

(** A frame in which only the second controller is visible. *)
Definition oneVisible : Frame :=
  mkFrame 0.016 true (mkVector3 0 1.6 0) [false; true] (λ _, noHands).

(** The "Next" button of [init] (the entity of index 1) is pressed for
    one frame and released. *)
Definition pressAndRelease : list Frame :=
  [frame_on 1 [Some 0.025; None]; idle; idle].

(** The button of the specification's scenario: resting height [0]
    (captured from the mesh by the first pass of [ButtonSystem]),
    [surfaceY = 0.05], [fullPressDistance = 0.02]. *)
Definition specButton : Entity :=
  Init.buttonEntity (Init.makeButtonMesh 0 0 0)
                    (Init.newButton obAction 0.05 0.4 0.02).

(** A world with the systems of [init] and that button alone. *)
Definition specWorld : World :=
  let w := Init.emptyWorld in
  let w := registerSystem InstructionSystem 0 w in
  let w := registerSystem CalibrationSystem 0 w in
  let w := registerSystem ButtonSystem 0 w in
  let w := registerSystem FingerInputSystem 0 w in
  createEntity specButton w.

(** One hand touches the button [0.025] below its surface, *)
Definition touch : Frame := frame_on 0 [Some 0.025; None].

(** ... and stays there: the button having moved down by [0.02], the
    fingertip is now at local height [0.045]. *)
Definition hold : Frame := frame_on 0 [Some 0.045; None].

End Scenario.

(** ** Two queries iterated as one *)

(** The callback of a pure system followed, on the same entity, by the
    callback of another system; and the other way round. [None] stays an
    exception. *)
Definition pure_then (q1 : Entity → bool) (h : nat → Entity → option Entity)
           (q2 : Entity → bool)
           (cb : nat → Entity → Globals → option (Entity * Globals))
  : nat → Entity → Globals → option (Entity * Globals) :=
  λ k e g,
    e1 ← (if q1 e then h k e else Some e);
    if q2 e1 then cb k e1 g else Some (e1, g).

Definition then_pure (q2 : Entity → bool)
           (cb : nat → Entity → Globals → option (Entity * Globals))
           (q1 : Entity → bool) (h : nat → Entity → option Entity)
  : nat → Entity → Globals → option (Entity * Globals) :=
  λ k e g,
    r ← (if q2 e then cb k e g else Some (e, g));
    e2 ← (if q1 r.1 then h k r.1 else Some r.1);
    Some (e2, r.2).

Definition every (e : Entity) : bool := true.

Definition set_soundAdded (s : bool) (w : World) : World :=
  mkWorld (entities w) (executeSystems w) s (globals w).

(** ** One entity through a frame *)

(** The four callbacks in the order the frame runs them, on one entity, each
    only if the entity is in the system's query. [create] tells whether
    [ButtonSystem] creates its sounds in this frame, [reach] whether the
    iteration of [CalibrationSystem] reaches the entity. The globals the
    button callback writes are left out: only the entity is followed. *)
Definition entity_frame (f : Frame) (create reach : bool) (k : nat)
           (e : Entity) : option Entity :=
  e ← (if cHandsInstructionText e
       then InstructionSystem.on_entity
              (InstructionSystem.anyVisible (controllers f)) e
       else Some e);
  e ← (if cNeedCalibration e && reach
       then CalibrationSystem.on_entity f e
       else Some e);
  e ← (if has_Button e
       then fst <$> ButtonSystem.on_entity
                      (if create then Some buttonPressSound else None)
                      (if create then Some buttonReleaseSound else None)
                      k e (mkGlobals 0 false [])
       else Some e);
  if cPressable e
  then FingerInputSystem.on_entity (delta f) (hands f k) e
  else Some e.

(** No hand intersects any entity in this frame. *)
Definition hands_off (f : Frame) : Prop :=
  ∀ k, no_contact (hands f k).

(** An entity that is not a button, or a button that is in state [resting],
    is not waiting for calibration, and sits at its resting height if that
    height is captured already. *)
Definition at_rest (e : Entity) : Prop :=
  match cButton e with
  | None => True
  | Some b =>
      currState b = resting
      ∧ cNeedCalibration e = false
      ∧ match restingY b with
        | None => True
        | Some r => entity_y e = Some r
        end
  end.

(** The scene index points into the scene list. *)
Definition in_range (g : Globals) : Prop :=
  (0 ≤ currentSceneIndex g < Z.of_nat (length scenes))%Z.

(** A texture load of a scene that exists. *)
Definition defined_load (ev : Event) : Prop :=
  match ev with
  | TextureLoad None => False
  | _ => True
  end.

(** What a frame never changes in a button. *)
Definition configuration (b : Button)
  : option float * float * option float * Action :=
  (surfaceY b, recoverySpeed b, fullPressDistance b, action b).

(** Which components an entity carries, the calibration marker apart. *)
Definition components (e : Entity) : bool * bool * bool * bool * bool :=
  (bool_decide (is_Some (cObject3D e)), has_Button e, cPressable e,
   cHandsInstructionText e, bool_decide (is_Some (cOffsetFromCamera e))).

(** ** The actions of a frame *)

(** The buttons that [ButtonSystem] reads entering [fully_pressed], with
    their index (counted from [k]) and their action, in entity order. *)
Fixpoint fired_from (k : nat) (es : list Entity) : list (nat * Action) :=
  match es with
  | [] => []
  | e :: es =>
      match cButton e with
      | Some b =>
          if rising fully_pressed b then [(k, action b)] else []
      | None => []
      end ++ fired_from (S k) es
  end.

(** The action calls of a trace, in order. *)
Definition called (tr : list Event) : list (nat * Action) :=
  omap (λ ev, match ev with
              | ActionCall k a => Some (k, a)
              | _ => None
              end) tr.

(** What the actions write: the scene index and the exit text. *)
Definition scene_state (g : Globals) : Z * bool :=
  (currentSceneIndex g, exitText_visible g).

(** The position [CalibrationSystem] gives an entity with offset [offset]. *)
Definition calibrated (f : Frame) (offset : OffsetFromCamera) : Vector3 :=
  mkVector3 (vx (xrCamera f) + off_x offset)
            (vy (xrCamera f) + off_y offset)
            (vz (xrCamera f) + off_z offset).

(** From globals [g] with the scene index within the list, globals [g']
    have it within the list too, and their trace is the trace of [g]
    followed by events none of which loads a scene that does not exist. *)
Definition well_loaded (g g' : Globals) : Prop :=
  in_range g →
  in_range g'
  ∧ ∃ evs, trace g' = trace g ++ evs ∧ Forall defined_load evs.

(** How many entities of the world carry the calibration marker. *)
Definition marked (w : World) : nat :=
  marked_before (length (entities w)) (entities w).

(** ** More scenarios *)

Module Cases.

Local Open Scope float_scope.

(** The "Next" button as [FingerInputSystem] leaves it after a full press:
    at its full-press height, [currState] [fully_pressed], [prevState] still
    [resting]. *)
Definition justPressed : Entity :=
  Init.buttonEntity (set_y 0.02 Init.nextButton)
                    (set_currState fully_pressed Scenario.nextButton).

(** A world with the systems of [init] whose only entity is that button,
    before any sound exists. *)
Definition pressedWorld : World :=
  mkWorld [justPressed] (executeSystems Init.world) false
          (mkGlobals 5 false []).

(** A world with a single entity that is tagged pressable but carries no
    button. *)
Definition brokenWorld : World :=
  mkWorld [mkEntity (Some Init.nextButton) None true false None false]
          (executeSystems Init.world) false (mkGlobals 0 false []).

(** The world of [init] with a second and a third console, marked for
    calibration like the first. *)
Definition threeConsoles : World :=
  createEntity Init.csEntity (createEntity Init.csEntity Init.world).

(** One hand touches the "Next" button of [init] (the entity of index 1)
    [0.025] below its surface. *)
Definition touchNext : Frame := Scenario.frame_on 1 [Some 0.025; None].

End Cases.

(** * Properties *)

(** ** Comparisons of binary64 numbers *)

Section Floats.

Local Open Scope float_scope.

Lemma ltb_leb (a b : float) : (a <? b) = true → (a <=? b) = true.
Proof.
  rewrite ltb_spec, leb_spec. unfold SFltb, SFleb.
  by destruct (SFcompare _ _) as [[]|].
Qed.

Lemma leb_false_ltb (a b : float) : (a <=? b) = false → (a <? b) = false.
Proof.
  intros Hle. destruct (a <? b) eqn:Hlt; [|done].
  apply ltb_leb in Hlt. congruence.
Qed.

Lemma ltb_irrefl (a : float) : (a <? a) = false.
Proof.
  rewrite ltb_spec. unfold SFltb.
  destruct (Prim2SF a) as [[]|[]| |[] m e]; simpl; try done.
  all: by rewrite Z.compare_refl, ?Pos.compare_refl.
Qed.

(** A positive number is neither a zero nor NaN, and lies above
    [-Infinity]. *)
Lemma positive_number (d : float) :
  (0 <? d) = true →
  is_zero d = false ∧ is_nan d = false ∧ (neg_infinity <? d) = true.
Proof.
  unfold is_zero, is_nan. rewrite !ltb_spec, !FloatAxioms.eqb_spec.
  change (Prim2SF 0) with (S754_zero false).
  change (Prim2SF neg_infinity) with (S754_infinity true).
  unfold SFltb, SFeqb.
  destruct (Prim2SF d) as [[]|[]| |[] m e]; simpl; try done.
  by rewrite Z.compare_refl, Pos.compare_refl.
Qed.

End Floats.

(** ** Well-formed entities *)

Lemma well_formed_spec (e : Entity) :
  well_formed e = true →
  (is_Some (cButton e) → is_Some (cObject3D e))
  ∧ (cPressable e = true → is_Some (cButton e) ∧ is_Some (cObject3D e))
  ∧ (cHandsInstructionText e = true → is_Some (cObject3D e))
  ∧ (cNeedCalibration e = true →
     is_Some (cOffsetFromCamera e) ∧ is_Some (cObject3D e)).
Proof.
  unfold well_formed, has_Button.
  destruct e as [o b p t off n]; simpl.
  destruct o, b, p, t, off, n; simpl; intros H; try done;
    repeat split; intros Hx; try done; try (by eexists);
    by destruct Hx.
Qed.

(** ** Proof steps that recur *)

(** The facts [well_formed] gives for the entity at an index of a world all
    of whose entities are well formed. *)
Tactic Notation "well_formed_at" constr(Hwf) constr(He)
       "as" simple_intropattern(pat) :=
  let H := fresh "He_wf" in
  pose proof (Forall_lookup_1 _ _ _ _ Hwf He) as H;
  apply well_formed_spec in H as pat.

(** An index of the world after an iteration is an index of the world
    before: the iteration keeps the length. *)
Tactic Notation "entity_before" constr(w) constr(i) constr(Hlen)
       "as" ident(e) ident(He) :=
  destruct (lookup_lt_is_Some_2 (entities w) i) as [e He];
  [rewrite <- Hlen; by eapply lookup_lt_Some|].

(** ** The reference definitions on small inputs *)

Example Math_max_of_arguments :
  JS.Math_max [1; 3; 2]%float = 3%float
  ∧ JS.Math_max [] = neg_infinity
  ∧ is_nan (JS.Math_max [1; nan]%float) = true.
Proof. by vm_compute. Qed.

Example Math_max_of_an_array :
  JS.Math_max [JS.ToNumber_Array [3]%float] = 3%float
  ∧ is_nan (JS.Math_max [JS.ToNumber_Array [1; 3]%float]) = true.
Proof. by vm_compute. Qed.

Example runs_of_fully_pressed :
  runs fully_pressed
       [resting; fully_pressed; fully_pressed; pressed; fully_pressed] = 2
  ∧ rising_edges fully_pressed resting
                 [resting; fully_pressed; fully_pressed; pressed; fully_pressed]
    = 2.
Proof. by vm_compute. Qed.

(** ** FingerInputSystem on one entity *)

Section FingerInput.

Local Open Scope float_scope.

Lemma pressingDistances_fold (b : Button) (hs : list HandReading)
      (acc : list float) :
  fold_left
    (λ acc hand,
       match hand with
       | Some ly => acc ++ [JS.ToNumber (surfaceY b) - ly]
       | None => acc
       end) hs acc
  = acc ++ omap (λ h : HandReading,
                   (λ ly, JS.ToNumber (surfaceY b) - ly) <$> h) hs.
Proof.
  revert acc. induction hs as [|[ly|] hs IH]; intros acc; simpl.
  - by rewrite app_nil_r.
  - by rewrite IH, <- app_assoc.
  - by rewrite IH.
Qed.

(** One distance per intersecting hand, in the order of the hands. *)
Lemma pressingDistances_omap (b : Button) (hs : list HandReading) :
  FingerInputSystem.pressingDistances b hs
  = omap (λ h : HandReading, (λ ly, JS.ToNumber (surfaceY b) - ly) <$> h) hs.
Proof.
  unfold FingerInputSystem.pressingDistances. by rewrite pressingDistances_fold.
Qed.

Lemma pressingDistances_no_contact (b : Button) (hs : list HandReading) :
  no_contact hs → FingerInputSystem.pressingDistances b hs = [].
Proof.
  rewrite pressingDistances_omap.
  induction 1 as [|h hs -> _ IH]; simpl; [done|]. apply IH.
Qed.

(** A single positive reading is the pressing distance. *)
Lemma pressingDistance_single (d : float) :
  (0 <? d) = true → FingerInputSystem.pressingDistance [d] = d.
Proof.
  intros Hd. destruct (positive_number d Hd) as (Hz & Hn & Hinf).
  unfold FingerInputSystem.pressingDistance, JS.Math_max, JS.ToNumber_Array,
    JS.Number_of_String_of, JS.max2; simpl.
  rewrite Hz, Hn, Hinf. reflexivity.
Qed.

(** With two or more contacts the array does not read as a number. *)
Lemma pressingDistance_several (d1 d2 : float) (ds : list float) :
  FingerInputSystem.pressingDistance (d1 :: d2 :: ds) = nan.
Proof. reflexivity. Qed.

Lemma press_contact (dt : float) (hs : list HandReading) (b : Button)
      (o : Mesh) :
  FingerInputSystem.pressingDistances b hs ≠ [] →
  let d := FingerInputSystem.pressingDistance
             (FingerInputSystem.pressingDistances b hs) in
  let y1 := if 0 <? d then vy (position o) - d else vy (position o) in
  FingerInputSystem.press dt hs b o
  = if y1 <=? fullPressY b
    then (set_currState fully_pressed b,
          set_y (fullPressY b) (if 0 <? d then set_y y1 o else o))
    else (set_currState pressed b, if 0 <? d then set_y y1 o else o).
Proof.
  intros Hne d y1. unfold FingerInputSystem.press. fold d.
  rewrite bool_decide_eq_false_2
    by (by destruct (FingerInputSystem.pressingDistances b hs)).
  unfold fullPressY, y1. by destruct (0 <? d).
Qed.

Lemma press_no_contact (dt : float) (hs : list HandReading) (b : Button)
      (o : Mesh) :
  no_contact hs →
  FingerInputSystem.press dt hs b o
  = if vy (position o) <? JS.ToNumber (restingY b)
    then (set_currState recovering b,
          set_y (vy (position o) + recoverySpeed b * dt) o)
    else (set_currState resting b, set_y (JS.ToNumber (restingY b)) o).
Proof.
  intros Hno. unfold FingerInputSystem.press.
  by rewrite (pressingDistances_no_contact b hs Hno).
Qed.

End FingerInput.

(** ** What a step of FingerInputSystem guarantees *)

Section FingerInputStep.

Local Open Scope float_scope.

(** With two or more hands in contact, the button is not displaced by any
    of the readings: it stays where it is, unless it is already at or below
    its full-press height. *)
Lemma several_contacts_not_displaced (dt : float) (hs : list HandReading)
      (e : Entity) (b : Button) (o : Mesh) (d1 d2 : float) (ds : list float) :
  cButton e = Some b →
  cObject3D e = Some o →
  FingerInputSystem.pressingDistances b hs = d1 :: d2 :: ds →
  (FingerInputSystem.on_entity dt hs e ≫= entity_y)
  = Some (if vy (position o) <=? fullPressY b
          then fullPressY b else vy (position o)).
Proof.
  intros Hb Ho Hds. unfold FingerInputSystem.on_entity. rewrite Hb, Ho. simpl.
  rewrite press_contact by (by rewrite Hds). rewrite Hds. simpl.
  by destruct (vy (position o) <=? fullPressY b).
Qed.

(** C1, at the input where the code departs from it: two hands press the
    "Next" button at rest, at pressing distances [0.05 - 0.04] and
    [0.05 - 0.02]. The deepest of the two readings is the second one, and
    adopting it would push the button down to its full-press height; the
    code reads the two-element array as NaN, does not move the button and
    leaves it merely [pressed]. *)
Theorem two_hands_press_is_lost :
  let ds := FingerInputSystem.pressingDistances
              Scenario.nextButton Scenario.twoHands in
  ds = [0.05 - 0.04; 0.05 - 0.02]
  ∧ deepest ds = 0.05 - 0.02
  ∧ (0.04 - deepest ds <=? fullPressY Scenario.nextButton) = true
  ∧ is_nan (FingerInputSystem.pressingDistance ds) = true
  ∧ (FingerInputSystem.on_entity 0.016 Scenario.twoHands Scenario.atRest
     ≫= entity_y) = Some 0.04
  ∧ (FingerInputSystem.on_entity 0.016 Scenario.twoHands Scenario.atRest
     ≫= entity_state) = Some pressed.
Proof. vm_compute. by repeat split. Qed.

(** C2 as stated fails. The "Next" button is pressable, at its full-press
    height [0.02] below its resting height [0.04], and no hand touches it;
    one slow frame (a non-negative [delta] of a tenth of a second) carries
    it to [0.02 + 0.4 * 0.1], past its resting height. *)
Lemma recovery_overshoots :
  cPressable Scenario.pushedDown = true
  ∧ entity_y Scenario.pushedDown = Some 0.02
  ∧ (restingY <$> cButton Scenario.pushedDown) = Some (Some 0.04)
  ∧ (0.02 <? 0.04) = true
  ∧ no_contact Scenario.noHands
  ∧ (0 <=? Scenario.slowFrame) = true
  ∧ (FingerInputSystem.on_entity
       Scenario.slowFrame Scenario.noHands Scenario.pushedDown ≫= entity_y)
    = Some (0.02 + 0.4 * 0.1)
  ∧ (0.04 <? 0.02 + 0.4 * 0.1) = true.
Proof.
  repeat split; try (by vm_compute). repeat constructor.
Qed.

(** C2, amended: without contact and below the resting height, one step
    adds [recoverySpeed * delta] to [position.y], unclamped, and sets the
    state to [recovering]; when the result is not below the resting height,
    the next step without contact puts [position.y] at exactly [restingY]
    and the state at [resting]. *)
Theorem recovery_then_snap (dt dt' : float) (hs hs' : list HandReading)
        (e : Entity) (b : Button) (o : Mesh) :
  cButton e = Some b →
  cObject3D e = Some o →
  no_contact hs →
  (vy (position o) <? JS.ToNumber (restingY b)) = true →
  ∃ e1,
    FingerInputSystem.on_entity dt hs e = Some e1
    ∧ entity_y e1 = Some (vy (position o) + recoverySpeed b * dt)
    ∧ entity_state e1 = Some recovering
    ∧ (no_contact hs' →
       (vy (position o) + recoverySpeed b * dt <? JS.ToNumber (restingY b))
       = false →
       ∃ e2,
         FingerInputSystem.on_entity dt' hs' e1 = Some e2
         ∧ entity_y e2 = Some (JS.ToNumber (restingY b))
         ∧ entity_state e2 = Some resting).
Proof.
  intros Hb Ho Hno Hlt. unfold FingerInputSystem.on_entity.
  rewrite Hb, Ho. simpl.
  rewrite press_no_contact, Hlt by done.
  eexists. split; [done|]. split; [done|]. split; [done|].
  intros Hno' Hge. simpl.
  rewrite press_no_contact by done. simpl. rewrite Hge.
  eexists. by repeat split.
Qed.

Lemma recovery_then_snap_witness :
  ∃ e1,
    FingerInputSystem.on_entity
      Scenario.slowFrame Scenario.noHands Scenario.pushedDown = Some e1
    ∧ entity_y e1 = Some (0.02 + 0.4 * Scenario.slowFrame)
    ∧ entity_state e1 = Some recovering
    ∧ (no_contact Scenario.noHands →
       (0.02 + 0.4 * Scenario.slowFrame <? 0.04) = false →
       ∃ e2,
         FingerInputSystem.on_entity 0.016 Scenario.noHands e1 = Some e2
         ∧ entity_y e2 = Some 0.04
         ∧ entity_state e2 = Some resting).
Proof.
  apply (recovery_then_snap Scenario.slowFrame 0.016 Scenario.noHands
           Scenario.noHands Scenario.pushedDown Scenario.nextButton
           (set_y 0.02 Init.nextButton)).
  - reflexivity.
  - reflexivity.
  - repeat constructor.
  - vm_compute. reflexivity.
Defined.

(** C6: whenever some hand is in contact, the step leaves [position.y] not
    below [restingY - fullPressDistance], however deep the contact; and if
    the press applied this frame reaches that height or goes past it,
    [position.y] is exactly [restingY - fullPressDistance] and the state is
    [fully_pressed]. For a single contact at a positive distance [d] the
    press applied is [position.y - d]. *)
Theorem full_press_clamp (dt : float) (hs : list HandReading)
        (e : Entity) (b : Button) (o : Mesh) :
  cButton e = Some b →
  cObject3D e = Some o →
  FingerInputSystem.pressingDistances b hs ≠ [] →
  ∃ e' y',
    FingerInputSystem.on_entity dt hs e = Some e'
    ∧ entity_y e' = Some y'
    ∧ (y' <? fullPressY b) = false
    ∧ (let d := FingerInputSystem.pressingDistance
                  (FingerInputSystem.pressingDistances b hs) in
       ((if 0 <? d then vy (position o) - d else vy (position o))
          <=? fullPressY b) = true →
       y' = fullPressY b ∧ entity_state e' = Some fully_pressed)
    ∧ (∀ d, FingerInputSystem.pressingDistances b hs = [d] →
            (0 <? d) = true →
            (vy (position o) - d <=? fullPressY b) = true →
            y' = fullPressY b ∧ entity_state e' = Some fully_pressed).
Proof.
  intros Hb Ho Hne. unfold FingerInputSystem.on_entity. rewrite Hb, Ho. simpl.
  rewrite press_contact by done.
  set (d := FingerInputSystem.pressingDistance
              (FingerInputSystem.pressingDistances b hs)).
  set (y1 := if 0 <? d then vy (position o) - d else vy (position o)).
  assert (Hsingle : ∀ d', FingerInputSystem.pressingDistances b hs = [d'] →
                          (0 <? d') = true →
                          y1 = vy (position o) - d').
  { intros d' Hd' Hpos. unfold y1, d. rewrite Hd'.
    by rewrite pressingDistance_single, Hpos. }
  destruct (y1 <=? fullPressY b) eqn:Hle.
  - eexists _, (fullPressY b). split; [done|]. split; [done|].
    split; [apply ltb_irrefl|]. by split.
  - exists (set_Button (set_currState pressed b)
              (set_Object3D (if 0 <? d then set_y y1 o else o) e)), y1.
    split; [done|]. split.
    { unfold entity_y, y1. simpl. by destruct (0 <? d). }
    split; [by apply leb_false_ltb|]. split; [done|].
    intros d' Hd' Hpos Hdeep. rewrite <- (Hsingle d' Hd' Hpos) in Hdeep.
    congruence.
Qed.

Lemma full_press_clamp_witness :
  ∃ e' y',
    FingerInputSystem.on_entity 0.016 [Some 0.025; None] Scenario.atRest = Some e'
    ∧ entity_y e' = Some y'
    ∧ (y' <? fullPressY Scenario.nextButton) = false
    ∧ (let d := FingerInputSystem.pressingDistance
                  (FingerInputSystem.pressingDistances
                     Scenario.nextButton [Some 0.025; None]) in
       ((if 0 <? d then 0.04 - d else 0.04)
          <=? fullPressY Scenario.nextButton) = true →
       y' = fullPressY Scenario.nextButton
       ∧ entity_state e' = Some fully_pressed)
    ∧ (∀ d, FingerInputSystem.pressingDistances
              Scenario.nextButton [Some 0.025; None] = [d] →
            (0 <? d) = true →
            (0.04 - d <=? fullPressY Scenario.nextButton) = true →
            y' = fullPressY Scenario.nextButton
            ∧ entity_state e' = Some fully_pressed).
Proof.
  apply (full_press_clamp 0.016 [Some 0.025; None] Scenario.atRest
           Scenario.nextButton Init.nextButton).
  - reflexivity.
  - reflexivity.
  - vm_compute. discriminate.
Defined.

End FingerInputStep.

(** ** Iterating over a query *)

Section ForEachLemmas.

Implicit Types (es : list Entity) (g : Globals) (q : Entity → bool).

Lemma forEach_from_pure q h k0 es g r :
  forEach_from q (pure_callback h) k0 es g = Some r →
  r.2 = g
  ∧ length r.1 = length es
  ∧ ∀ i e, es !! i = Some e →
           ∃ e', r.1 !! i = Some e'
                 ∧ if q e then h (k0 + i) e = Some e' else e' = e.
Proof.
  revert k0 g r. induction es as [|e0 es IH]; intros k0 g r Hr; simpl in Hr.
  - simplify_eq. by repeat split.
  - destruct (if q e0 then pure_callback h k0 e0 g else Some (e0, g))
      as [[e0' g0]|] eqn:H0; simpl in Hr; [|done].
    destruct (forEach_from q (pure_callback h) (S k0) es g0)
      as [rs|] eqn:Hrs; simpl in Hr; [|done].
    simplify_eq. apply IH in Hrs as (Hg & Hlen & Hlook).
    assert (g0 = g ∧ if q e0 then h k0 e0 = Some e0' else e0' = e0) as [-> H0'].
    { destruct (q e0); [|by simplify_eq].
      unfold pure_callback in H0. destruct (h k0 e0); by simplify_eq/=. }
    simpl. split; [done|]. split; [by rewrite Hlen|].
    intros [|i] e He; simpl in *.
    + simplify_eq. exists e0'. by rewrite Nat.add_0_r.
    + destruct (Hlook i e He) as (e' & He' & Hq). exists e'.
      by rewrite Nat.add_succ_r.
Qed.

Lemma forEach_from_pure_total q h k0 es g :
  (∀ i e, es !! i = Some e → q e = true → is_Some (h (k0 + i) e)) →
  is_Some (forEach_from q (pure_callback h) k0 es g).
Proof.
  revert k0 g. induction es as [|e0 es IH]; intros k0 g Hok; simpl; [done|].
  assert (is_Some (if q e0 then pure_callback h k0 e0 g else Some (e0, g)))
    as [[e0' g0] ->].
  { destruct (q e0) eqn:Hq; [|done].
    destruct (Hok 0 e0 eq_refl Hq) as [e' He'].
    rewrite Nat.add_0_r in He'. unfold pure_callback. by rewrite He'. }
  simpl. destruct (IH (S k0) g0) as [rs ->]; [|done].
  intros i e He Hq. rewrite Nat.add_succ_l, <- Nat.add_succ_r.
  by apply (Hok (S i)).
Qed.

(** A system whose callback is pure rewrites the entities in place and
    changes nothing else. *)
Lemma forEach_pure q h (w w' : World) :
  forEach q (pure_callback h) w = Some w' →
  globals w' = globals w
  ∧ executeSystems w' = executeSystems w
  ∧ soundAdded w' = soundAdded w
  ∧ length (entities w') = length (entities w)
  ∧ ∀ i e, entities w !! i = Some e →
           ∃ e', entities w' !! i = Some e'
                 ∧ if q e then h i e = Some e' else e' = e.
Proof.
  unfold forEach. intros Hw.
  destruct (forEach_from q (pure_callback h) 0 (entities w) (globals w))
    as [r|] eqn:Hr; simpl in Hw; [|done].
  simplify_eq. apply forEach_from_pure in Hr as (Hg & Hlen & Hlook).
  by repeat split.
Qed.

Lemma forEach_pure_total q h (w : World) :
  (∀ i e, entities w !! i = Some e → q e = true → is_Some (h i e)) →
  is_Some (forEach q (pure_callback h) w).
Proof.
  intros Hok. unfold forEach.
  destruct (forEach_from_pure_total q h 0 (entities w) (globals w) Hok)
    as [r ->].
  done.
Qed.

Lemma forEach_pure_Forall (P : Entity → Prop) q h (w w' : World) :
  (∀ i e e', q e = true → h i e = Some e' → P e → P e') →
  Forall P (entities w) →
  forEach q (pure_callback h) w = Some w' →
  Forall P (entities w').
Proof.
  intros Hstep HP Hw. apply forEach_pure in Hw as (_ & _ & _ & Hlen & Hlook).
  apply Forall_lookup. intros i e' He'.
  entity_before w i Hlen as e He.
  destruct (Hlook i e He) as (e'' & He'' & Hq). simplify_eq.
  pose proof (Forall_lookup_1 _ _ _ _ HP He) as HPe.
  destruct (q e) eqn:Hqe; [by eapply Hstep|by subst].
Qed.

Lemma forEach_pure_id q (w : World) :
  forEach q (pure_callback (λ _ e, Some e)) w = Some w.
Proof.
  unfold forEach.
  assert (∀ k es g, forEach_from q (pure_callback (λ _ e, Some e)) k es g
                    = Some (es, g)) as ->.
  { intros k es. revert k. induction es as [|e es IH]; intros k g; [done|].
    simpl. replace (if q e then _ else _) with (Some (e, g))
      by (by destruct (q e)).
    simpl. by rewrite IH. }
  by destruct w.
Qed.

(** The equations of the iteration and of a pure callback. *)
Lemma forEach_from_cons q c (k : nat) (e : Entity) es g :
  forEach_from q c k (e :: es) g
  = (r ← (if q e then c k e g else Some (e, g));
     rs ← forEach_from q c (S k) es r.2;
     Some (r.1 :: rs.1, rs.2)).
Proof. reflexivity. Qed.

Lemma pure_callback_eq (h : nat → Entity → option Entity) (k : nat)
      (e : Entity) g :
  pure_callback h k e g = (e' ← h k e; Some (e', g)).
Proof. reflexivity. Qed.

(** Two callbacks that agree from index [k] on give the same iteration from
    [k]. *)
Lemma forEach_from_ext_from q c c' (k : nat) es g :
  (∀ j e g, k ≤ j → c j e g = c' j e g) →
  forEach_from q c k es g = forEach_from q c' k es g.
Proof.
  revert k g. induction es as [|e0 es IH]; intros k g Hext; [done|].
  rewrite !forEach_from_cons, Hext by done.
  destruct (if q e0 then c' k e0 g else Some (e0, g)) as [[e1 g1]|];
    cbn [mbind option_bind fst snd]; [|done].
  rewrite IH; [done|]. intros j e g' Hj. apply Hext. lia.
Qed.

Lemma forEach_from_ext q c c' (k : nat) es g :
  (∀ k e g, c k e g = c' k e g) →
  forEach_from q c k es g = forEach_from q c' k es g.
Proof. intros Hext. apply forEach_from_ext_from. intros j e g' _. apply Hext. Qed.

Lemma forEach_ext q c c' (w : World) :
  (∀ k e g, c k e g = c' k e g) →
  forEach q c w = forEach q c' w.
Proof. intros Hext. unfold forEach. by rewrite (forEach_from_ext q c c'). Qed.

End ForEachLemmas.

(** ** Iterating over a live query *)

Section ForEachLive.

Implicit Types (es : list Entity) (g : Globals) (q : Entity → bool).

Lemma forEach_live_from_cons q c (s : bool) (k : nat) (e : Entity) es g :
  forEach_live_from q c s k (e :: es) g
  = if q e then
      if s then
        rs ← forEach_live_from q c false (S k) es g;
        Some (e :: rs.1, rs.2)
      else
        r ← c k e g;
        rs ← forEach_live_from q c (negb (q r.1)) (S k) es r.2;
        Some (r.1 :: rs.1, rs.2)
    else
      rs ← forEach_live_from q c s (S k) es g;
      Some (e :: rs.1, rs.2).
Proof. reflexivity. Qed.

(** A callback that leaves every entity in the query is never passed over:
    the live iteration is the plain one. This is the case of the three
    systems that add and remove no component. *)
Lemma forEach_live_from_stable q c (k : nat) es g :
  (∀ j e g r, q e = true → c j e g = Some r → q r.1 = true) →
  forEach_live_from q c false k es g = forEach_from q c k es g.
Proof.
  intros Hstay. revert k g. induction es as [|e0 es IH]; intros k g; [done|].
  rewrite forEach_live_from_cons, forEach_from_cons.
  destruct (q e0) eqn:Hq.
  - destruct (c k e0 g) as [r|] eqn:Hr; cbn [mbind option_bind]; [|done].
    by rewrite (Hstay k e0 g r Hq Hr), IH.
  - cbn [mbind option_bind fst snd]. by rewrite IH.
Qed.

(** A callback that changes nothing leaves the world as it is, wherever the
    iteration starts. *)
Lemma forEach_live_from_id q (s : bool) (k : nat) es g :
  forEach_live_from q (pure_callback (λ _ e, Some e)) s k es g
  = Some (es, g).
Proof.
  revert s k. induction es as [|e0 es IH]; intros s k; [done|].
  rewrite forEach_live_from_cons, pure_callback_eq.
  destruct (q e0) eqn:Hq; [destruct s|].
  - by rewrite IH.
  - cbn [mbind option_bind fst snd]. by rewrite Hq, IH.
  - by rewrite IH.
Qed.

Lemma forEach_live_from_ext q c c' (s : bool) (k : nat) es g :
  (∀ k e g, c k e g = c' k e g) →
  forEach_live_from q c s k es g = forEach_live_from q c' s k es g.
Proof.
  intros Hext. revert s k g. induction es as [|e0 es IH]; intros s k g; [done|].
  rewrite !forEach_live_from_cons, Hext.
  destruct (q e0), s; rewrite ?IH; try done.
  destruct (c' k e0 g) as [r|]; cbn [mbind option_bind]; [|done].
  by rewrite IH.
Qed.

Lemma marked_before_S (k : nat) (e : Entity) es :
  marked_before (S k) (e :: es)
  = (if cNeedCalibration e then 1 else 0) + marked_before k es.
Proof. reflexivity. Qed.

Lemma marked_before_0 es : marked_before 0 es = 0.
Proof. by destruct es. Qed.

(** The callback of [CalibrationSystem] takes the entity out of the query
    when there is a session, and does nothing when there is none. *)
Lemma calibration_removes (f : Frame) (e e' : Entity) :
  session f = true →
  CalibrationSystem.on_entity f e = Some e' →
  cNeedCalibration e' = false.
Proof.
  unfold CalibrationSystem.on_entity. intros ->.
  destruct (cOffsetFromCamera e); [|done].
  destruct (cObject3D e); [|done]. simpl. by intros; simplify_eq.
Qed.

Lemma calibration_no_session (f : Frame) (e : Entity) :
  session f = false → CalibrationSystem.on_entity f e = Some e.
Proof. unfold CalibrationSystem.on_entity. by intros ->. Qed.

(** With a session, the live iteration of [CalibrationSystem] is a plain
    iteration of a callback that acts on every second entity of the
    query. *)
Lemma calibration_live_from (f : Frame) (s : bool) (k0 : nat) es g :
  session f = true →
  forEach_live_from cNeedCalibration
    (pure_callback (λ _ e, CalibrationSystem.on_entity f e)) s k0 es g
  = forEach_from cNeedCalibration
      (pure_callback
         (λ k e, if xorb (Nat.even (marked_before (k - k0) es)) s
                 then CalibrationSystem.on_entity f e else Some e))
      k0 es g.
Proof.
  intros Hs. revert s k0 g. induction es as [|e0 es IH]; intros s k0 g; [done|].
  assert (∀ s' g',
             (∀ n, xorb (Nat.even
                           ((if cNeedCalibration e0 then 1 else 0) + n)) s
                   = xorb (Nat.even n) s') →
             forEach_from cNeedCalibration
               (pure_callback
                  (λ k e, if xorb (Nat.even (marked_before (k - k0)
                                               (e0 :: es))) s
                          then CalibrationSystem.on_entity f e else Some e))
               (S k0) es g'
             = forEach_live_from cNeedCalibration
                 (pure_callback (λ _ e, CalibrationSystem.on_entity f e))
                 s' (S k0) es g') as Htail.
  { intros s' g' Hpar. rewrite IH. apply forEach_from_ext_from.
    intros j e g1 Hj. rewrite !pure_callback_eq. cbv beta.
    replace (j - k0) with (S (j - S k0)) by lia.
    by rewrite marked_before_S, Hpar. }
  rewrite forEach_live_from_cons, forEach_from_cons, !pure_callback_eq.
  cbv beta. rewrite Nat.sub_diag, marked_before_0.
  change (Nat.even 0) with true. rewrite xorb_true_l.
  destruct (cNeedCalibration e0) eqn:Hm; [destruct s|].
  - cbn [negb mbind option_bind fst snd]. rewrite (Htail false g); [done|].
    intros n. rewrite Nat.even_succ, <- Nat.negb_even. by destruct (Nat.even n).
  - cbn [negb].
    destruct (CalibrationSystem.on_entity f e0) as [e1|] eqn:H1;
      cbn [mbind option_bind fst snd]; [|done].
    rewrite (calibration_removes f e0 e1 Hs H1). cbn [negb].
    rewrite (Htail true g); [done|].
    intros n. rewrite Nat.even_succ, <- Nat.negb_even. by destruct (Nat.even n).
  - cbn [mbind option_bind fst snd]. rewrite (Htail s g); [done|].
    intros n. done.
Qed.

(** [CalibrationSystem] is the plain iteration of its callback restricted
    to the entities it reaches. *)
Lemma calibration_execute (f : Frame) (w : World) :
  CalibrationSystem.execute f w
  = forEach cNeedCalibration
            (pure_callback (calibrate_reached f (entities w))) w.
Proof.
  unfold CalibrationSystem.execute, forEach_live, forEach.
  destruct (session f) eqn:Hs.
  - rewrite calibration_live_from by done. f_equal.
    apply forEach_from_ext. intros k e g. rewrite !pure_callback_eq.
    unfold calibrate_reached, reached. by rewrite Nat.sub_0_r, xorb_false_r.
  - rewrite (forEach_live_from_ext _ _ (pure_callback (λ _ e, Some e))),
      forEach_live_from_id.
    + rewrite (forEach_from_ext _ _ (pure_callback (λ _ e, Some e))).
      * pose proof (forEach_pure_id cNeedCalibration w) as Hid.
        unfold forEach in Hid. rewrite Hid. by destruct w.
      * intros k e g. rewrite !pure_callback_eq. unfold calibrate_reached.
        rewrite calibration_no_session by done. by destruct (reached _ _).
    + intros k e g. rewrite !pure_callback_eq.
      by rewrite calibration_no_session.
Qed.

(** Entities that carry the marker at the same indices give the same
    counts. *)
Lemma marked_before_same (k : nat) es1 es2 :
  Forall2 (λ e1 e2, cNeedCalibration e1 = cNeedCalibration e2) es1 es2 →
  marked_before k es1 = marked_before k es2.
Proof.
  intros H. revert k. induction H as [|e1 e2 es1 es2 Hm _ IH]; intros k.
  - done.
  - destruct k as [|k]; [done|]. by rewrite !marked_before_S, Hm, IH.
Qed.

End ForEachLive.

(** ** InstructionSystem *)

Section Instruction.


Lemma anyVisible_fold (cs : list bool) (acc : bool) :
  fold_left (λ visible controller : bool, if controller then true else visible)
            cs acc
  = acc || existsb id cs.
Proof.
  revert acc. induction cs as [|[] cs IH]; intros acc; simpl.
  - by rewrite orb_false_r.
  - rewrite IH. by rewrite orb_true_r.
  - by rewrite IH.
Qed.

Lemma anyVisible_true (cs : list bool) :
  InstructionSystem.anyVisible cs = true ↔ true ∈ cs.
Proof.
  unfold InstructionSystem.anyVisible. rewrite anyVisible_fold. simpl.
  rewrite existsb_exists. split.
  - intros ([] & Hin & Hc); [|done]. by apply list_elem_of_In.
  - intros Hin. exists true. split; [|done]. by apply list_elem_of_In.
Qed.

Lemma anyVisible_false (cs : list bool) :
  InstructionSystem.anyVisible cs = false ↔ Forall (λ c, c = false) cs.
Proof.
  rewrite <- not_true_iff_false, anyVisible_true, Forall_forall.
  split.
  - intros Hno [] Hin; done.
  - intros Hall Hin. by specialize (Hall _ Hin).
Qed.

(** C9: [InstructionSystem] succeeds on a world of well-formed entities,
    keeps every entity at its index, and sets the visibility flag of the
    object of every entity that carries the instruction-text tag to the
    disjunction of this frame's controller flags: true exactly when some
    controller is visible, false exactly when none is. The entity keeps the
    tag and everything else it had. The flag written is computed from the
    frame alone; the entities without the tag, the globals and the systems
    are untouched. *)
Theorem instruction_visibility (f : Frame) (w : World) :
  Forall (λ e, well_formed e = true) (entities w) →
  ∃ w',
    InstructionSystem.execute f w = Some w'
    ∧ length (entities w') = length (entities w)
    ∧ (∀ k e, entities w !! k = Some e →
              cHandsInstructionText e = true →
              ∃ o e',
                cObject3D e = Some o
                ∧ entities w' !! k = Some e'
                ∧ e' = set_Object3D
                         (set_visible
                            (InstructionSystem.anyVisible (controllers f)) o)
                         e
                ∧ cHandsInstructionText e' = true
                ∧ visible <$> cObject3D e'
                  = Some (InstructionSystem.anyVisible (controllers f)))
    ∧ (InstructionSystem.anyVisible (controllers f) = true
       ↔ true ∈ controllers f)
    ∧ (InstructionSystem.anyVisible (controllers f) = false
       ↔ Forall (λ c, c = false) (controllers f))
    ∧ (∀ k e, entities w !! k = Some e →
              cHandsInstructionText e = false →
              entities w' !! k = Some e)
    ∧ globals w' = globals w
    ∧ executeSystems w' = executeSystems w
    ∧ soundAdded w' = soundAdded w.
Proof.
  intros Hwf. unfold InstructionSystem.execute.
  destruct (forEach_pure_total cHandsInstructionText
              (λ _ e, InstructionSystem.on_entity
                        (InstructionSystem.anyVisible (controllers f)) e) w)
    as [w' Hw'].
  { intros i e He Ht.
    well_formed_at Hwf He as (_ & _ & Hobj & _).
    destruct (Hobj Ht) as [o Ho]. unfold InstructionSystem.on_entity.
    by rewrite Ho. }
  exists w'. split; [done|].
  apply forEach_pure in Hw' as (Hg & Hsys & Hsound & Hlen & Hlook).
  split; [done|].
  split; [|split; [apply anyVisible_true|split; [apply anyVisible_false|]]].
  - intros k e He Ht.
    destruct (Hlook k e He) as (e' & He' & Hq). rewrite Ht in Hq.
    unfold InstructionSystem.on_entity in Hq.
    destruct (cObject3D e) as [o|] eqn:Ho; [|done]. simpl in Hq.
    simplify_eq. exists o. eexists. by repeat split.
  - split; [|done]. intros k e He Ht.
    destruct (Hlook k e He) as (e' & He' & Hq). rewrite Ht in Hq. by subst.
Qed.

Lemma instruction_visibility_witness :
  ∃ w',
    InstructionSystem.execute Scenario.oneVisible Init.world = Some w'
    ∧ length (entities w') = 6%nat
    ∧ entities w' !! 5%nat
      = Some (set_Object3D (set_visible true Init.instructionText)
                           Init.itEntity)
    ∧ (InstructionSystem.anyVisible [false; true] = true
       ↔ true ∈ [false; true])
    ∧ globals w' = globals Init.world.
Proof.
  destruct (instruction_visibility Scenario.oneVisible Init.world)
    as (w' & Hw' & Hlen & Htag & Htrue & _ & _ & Hg & _).
  - vm_compute. repeat constructor.
  - destruct (Htag 5%nat Init.itEntity eq_refl eq_refl)
      as (o & e' & Ho & He' & -> & _).
    injection Ho as <-.
    exists w'. split; [exact Hw'|]. split; [exact Hlen|].
    split; [exact He'|]. split; [exact Htrue|exact Hg].
Defined.

End Instruction.

(** ** CalibrationSystem *)

Section Calibration.

Local Open Scope float_scope.

Lemma calibration_well_formed (f : Frame) (e e' : Entity) :
  CalibrationSystem.on_entity f e = Some e' →
  well_formed e = true → well_formed e' = true.
Proof.
  unfold CalibrationSystem.on_entity, well_formed, has_Button.
  destruct e as [o b p t off n]; simpl.
  destruct (session f); [|by intros; simplify_eq].
  destruct off, o; simpl; intros; simplify_eq; simpl in *;
    destruct b, p, t, n; done.
Qed.

Lemma calibrate_reached_well_formed (f : Frame) (es : list Entity) (k : nat)
      (e e' : Entity) :
  calibrate_reached f es k e = Some e' →
  well_formed e = true → well_formed e' = true.
Proof.
  unfold calibrate_reached. destruct (reached k es).
  - apply calibration_well_formed.
  - by intros; simplify_eq.
Qed.

Lemma calibration_total (f : Frame) (w : World) :
  Forall (λ e, well_formed e = true) (entities w) →
  is_Some (CalibrationSystem.execute f w).
Proof.
  intros Hwf. rewrite calibration_execute.
  apply forEach_pure_total. intros i e He Hn.
  well_formed_at Hwf He as (_ & _ & _ & Hcal).
  destruct (Hcal Hn) as [[off Hoff] [o Ho]].
  unfold calibrate_reached, CalibrationSystem.on_entity.
  rewrite Hoff, Ho. by destruct (reached i (entities w)), (session f).
Qed.

Lemma calibration_keeps_well_formed (f : Frame) (w w' : World) :
  CalibrationSystem.execute f w = Some w' →
  Forall (λ e, well_formed e = true) (entities w) →
  Forall (λ e, well_formed e = true) (entities w').
Proof.
  rewrite calibration_execute. intros Hw' Hwf.
  eapply forEach_pure_Forall; [|exact Hwf|exact Hw'].
  intros i e0 e0' _. apply calibrate_reached_well_formed.
Qed.





End Calibration.

(** ** Counting events *)

Section Counting.

Implicit Types (p : Event → bool) (g : Globals).

Lemma count_events_app p (tr1 tr2 : list Event) :
  count_events p (tr1 ++ tr2) = count_events p tr1 + count_events p tr2.
Proof. unfold count_events. by rewrite filter_app, length_app. Qed.

Lemma count_emit p (ev : Event) g :
  count_events p (trace (emit ev g))
  = count_events p (trace g) + (if p ev then 1 else 0).
Proof.
  unfold emit; simpl. rewrite count_events_app. f_equal.
  unfold count_events. rewrite filter_cons, filter_nil.
  destruct (p ev); by case_decide.
Qed.

(** The action callbacks load textures and start a timer: they neither play
    a sound nor call an action. *)
Lemma count_call p (f : Action) g :
  (∀ url, p (TextureLoad url) = false) →
  p ExitTimeout = false →
  count_events p (trace (call f g)) = count_events p (trace g).
Proof.
  intros Hload Htimer.
  destruct f; unfold call, nextScene, prevScene, loadScene; cbv zeta;
    rewrite ?count_emit, ?Hload, ?Htimer; simpl; lia.
Qed.

End Counting.

(** ** ButtonSystem on one entity *)

Section ButtonEntity.


Lemma button_on_entity (ps rs : option Audio) (k : nat) (e : Entity)
      (g : Globals) (b : Button) (m : Mesh) :
  cButton e = Some b →
  cObject3D e = Some m →
  ∃ b' g',
    ButtonSystem.on_entity ps rs k e g = Some (set_Button b' e, g')
    ∧ currState b' = resting
    ∧ prevState b' = currState b
    ∧ releaseSound b' = match rs with
                        | Some a => Some a
                        | None => releaseSound b
                        end
    ∧ (∀ j, count_events (is_ActionCall j) (trace g')
            = count_events (is_ActionCall j) (trace g)
              + if bool_decide (k = j) && rising fully_pressed b
                then 1 else 0)
    ∧ (∀ j, count_events (is_ReleaseSoundPlay j) (trace g')
            = count_events (is_ReleaseSoundPlay j) (trace g)
              + if bool_decide (k = j) && rising recovering b
                   && bool_decide (is_Some (releaseSound b'))
                then 1 else 0).
Proof.
  intros Hb Hm. unfold ButtonSystem.on_entity. rewrite Hb, Hm. simpl.
  eexists _, _. split; [reflexivity|]. simpl.
  split; [done|]. unfold rising.
  destruct (restingY b) eqn:Hr, ps as [aps|], rs as [ars|]; simpl;
    (split; [done|]); (split; [done|]);
    destruct (bool_decide (currState b = fully_pressed)
              && negb (bool_decide (prevState b = fully_pressed)));
    destruct (bool_decide (currState b = recovering)
              && negb (bool_decide (prevState b = recovering)));
    destruct (pressSound b), (releaseSound b);
    split; intros j;
    rewrite ?count_emit, ?count_call by done;
    rewrite ?count_emit; simpl;
    rewrite ?andb_true_r, ?andb_false_r;
    try destruct (bool_decide (k = j)); simpl; lia.
Qed.

End ButtonEntity.

(** ** Callbacks that write the globals *)

Section ForEachGlobals.

Context (q : Entity → bool)
        (cb : nat → Entity → Globals → option (Entity * Globals)).

Lemma forEach_from_total (k0 : nat) (es : list Entity) (g : Globals) :
  (∀ i e g, es !! i = Some e → q e = true → is_Some (cb (k0 + i) e g)) →
  is_Some (forEach_from q cb k0 es g).
Proof.
  revert k0 g. induction es as [|e0 es IH]; intros k0 g Hok; simpl; [done|].
  assert (is_Some (if q e0 then cb k0 e0 g else Some (e0, g)))
    as [[e0' g0] ->].
  { destruct (q e0) eqn:Hq; [|done].
    specialize (Hok 0 e0 g eq_refl Hq). by rewrite Nat.add_0_r in Hok. }
  simpl. destruct (IH (S k0) g0) as [rs ->]; [|done].
  intros i e g' He Hq. rewrite Nat.add_succ_l, <- Nat.add_succ_r.
  by apply (Hok (S i)).
Qed.

Lemma forEach_from_lookup (k0 : nat) (es : list Entity) (g : Globals)
      (r : list Entity * Globals) :
  forEach_from q cb k0 es g = Some r →
  length r.1 = length es
  ∧ ∀ i e, es !! i = Some e →
           ∃ e', r.1 !! i = Some e'
                 ∧ if q e
                   then ∃ gi gi', cb (k0 + i) e gi = Some (e', gi')
                   else e' = e.
Proof.
  revert k0 g r. induction es as [|e0 es IH]; intros k0 g r Hr; simpl in Hr.
  - simplify_eq. by split.
  - destruct (if q e0 then cb k0 e0 g else Some (e0, g))
      as [[e0' g0]|] eqn:H0; simpl in Hr; [|done].
    destruct (forEach_from q cb (S k0) es g0) as [rs|] eqn:Hrs;
      simpl in Hr; [|done].
    simplify_eq. apply IH in Hrs as (Hlen & Hlook). simpl.
    split; [by rewrite Hlen|].
    intros [|i] e He; simpl in *.
    + simplify_eq. exists e0'. split; [done|]. rewrite Nat.add_0_r.
      destruct (q e); [by eexists _, _|by simplify_eq].
    + destruct (Hlook i e He) as (e' & He' & Hq). exists e'.
      by rewrite Nat.add_succ_r.
Qed.

(** A quantity of the globals that only the callback of the j-th entity
    changes, by an amount [c] that depends on the entity alone, changes
    over the whole iteration by the amount of the j-th entity. *)
Lemma forEach_from_measure (μ : Globals → nat) (j : nat) (c : Entity → nat)
      (k0 : nat) (es : list Entity) (g : Globals) (r : list Entity * Globals) :
  (∀ k e g e' g', q e = true → cb k e g = Some (e', g') →
                  μ g' = μ g + if bool_decide (k = j) then c e else 0) →
  forEach_from q cb k0 es g = Some r →
  μ r.2 = μ g + if decide (k0 ≤ j)
                then match es !! (j - k0) with
                     | Some e => if q e then c e else 0
                     | None => 0
                     end
                else 0.
Proof.
  intros Hcb. revert k0 g r.
  induction es as [|e0 es IH]; intros k0 g r Hr; simpl in Hr.
  - simplify_eq. simpl. case_decide; lia.
  - destruct (if q e0 then cb k0 e0 g else Some (e0, g))
      as [[e0' g0]|] eqn:H0; simpl in Hr; [|done].
    destruct (forEach_from q cb (S k0) es g0) as [rs|] eqn:Hrs;
      simpl in Hr; [|done].
    simplify_eq. apply IH in Hrs. simpl. rewrite Hrs.
    assert (μ g0 = μ g + if q e0 then if bool_decide (k0 = j) then c e0 else 0
                         else 0) as ->.
    { destruct (q e0) eqn:Hq; [by eapply Hcb|]. simplify_eq. lia. }
    destruct (decide (k0 = j)) as [->|Hne].
    + rewrite bool_decide_eq_true_2 by done.
      rewrite decide_False by lia. rewrite decide_True by lia.
      rewrite Nat.sub_diag. simpl. lia.
    + rewrite bool_decide_eq_false_2 by done.
      destruct (decide (k0 ≤ j)) as [Hle|Hgt].
      * rewrite decide_True by lia.
        replace (j - k0) with (S (j - S k0)) by lia. simpl.
        destruct (q e0); lia.
      * rewrite decide_False by lia. destruct (q e0); lia.
Qed.

Lemma forEach_total (w : World) :
  (∀ i e g, entities w !! i = Some e → q e = true → is_Some (cb i e g)) →
  is_Some (forEach q cb w).
Proof.
  intros Hok. unfold forEach.
  destruct (forEach_from_total 0 (entities w) (globals w) Hok) as [r ->].
  done.
Qed.

Lemma forEach_lookup (w w' : World) :
  forEach q cb w = Some w' →
  executeSystems w' = executeSystems w
  ∧ soundAdded w' = soundAdded w
  ∧ length (entities w') = length (entities w)
  ∧ ∀ i e, entities w !! i = Some e →
           ∃ e', entities w' !! i = Some e'
                 ∧ if q e
                   then ∃ gi gi', cb i e gi = Some (e', gi')
                   else e' = e.
Proof.
  unfold forEach. intros Hw.
  destruct (forEach_from q cb 0 (entities w) (globals w)) as [r|] eqn:Hr;
    simpl in Hw; [|done].
  simplify_eq. apply forEach_from_lookup in Hr as (Hlen & Hlook).
  by repeat split.
Qed.

Lemma forEach_measure (μ : Globals → nat) (j : nat) (c : Entity → nat)
      (w w' : World) :
  (∀ k e g e' g', q e = true → cb k e g = Some (e', g') →
                  μ g' = μ g + if bool_decide (k = j) then c e else 0) →
  forEach q cb w = Some w' →
  μ (globals w') = μ (globals w)
                   + match entities w !! j with
                     | Some e => if q e then c e else 0
                     | None => 0
                     end.
Proof.
  unfold forEach. intros Hcb Hw.
  destruct (forEach_from q cb 0 (entities w) (globals w)) as [r|] eqn:Hr;
    simpl in Hw; [|done].
  simplify_eq. simpl.
  rewrite (forEach_from_measure μ j c 0 _ _ _ Hcb Hr).
  rewrite decide_True by lia. by rewrite Nat.sub_0_r.
Qed.

Lemma forEach_Forall (P : Entity → Prop) (w w' : World) :
  (∀ i e g e' g', q e = true → cb i e g = Some (e', g') → P e → P e') →
  Forall P (entities w) →
  forEach q cb w = Some w' →
  Forall P (entities w').
Proof.
  intros Hstep HP Hw. apply forEach_lookup in Hw as (_ & _ & Hlen & Hlook).
  apply Forall_lookup. intros i e' He'.
  entity_before w i Hlen as e He.
  destruct (Hlook i e He) as (e'' & He'' & Hq). simplify_eq.
  pose proof (Forall_lookup_1 _ _ _ _ HP He) as HPe.
  destruct (q e) eqn:Hqe; [|by subst].
  destruct Hq as (gi & gi' & Hcb). by eapply Hstep.
Qed.

End ForEachGlobals.

(** ** What each system does to the world *)

Section Systems.

Implicit Types (f : Frame) (w : World) (e : Entity) (b : Button).

Lemma well_formed_set_Object3D (o : Mesh) e :
  well_formed e = true → well_formed (set_Object3D o e) = true.
Proof.
  unfold well_formed, has_Button. destruct e as [o0 b0 p t off n]; simpl.
  destruct o0, b0, p, t, off, n; done.
Qed.

Lemma well_formed_set_Button b e :
  is_Some (cObject3D e) →
  well_formed e = true → well_formed (set_Button b e) = true.
Proof.
  unfold well_formed, has_Button. destruct e as [o0 b0 p t off n]; simpl.
  intros [o ->]. destruct b0, p, t, off, n; done.
Qed.

Lemma button_at_lookup (k : nat) w e :
  entities w !! k = Some e → button_at k w = cButton e.
Proof. unfold button_at. by intros ->. Qed.

Lemma button_at_Some (k : nat) w b :
  button_at k w = Some b →
  ∃ e, entities w !! k = Some e ∧ cButton e = Some b.
Proof.
  unfold button_at. destruct (entities w !! k) as [e|]; [|done].
  simpl. by exists e.
Qed.

(** *** InstructionSystem *)

Lemma instruction_on_entity (v : bool) e e' :
  InstructionSystem.on_entity v e = Some e' →
  cButton e' = cButton e ∧ (well_formed e = true → well_formed e' = true).
Proof.
  unfold InstructionSystem.on_entity. destruct (cObject3D e); [|done].
  simpl. intros; simplify_eq. split; [done|apply well_formed_set_Object3D].
Qed.

Lemma instruction_step f w :
  all_well_formed w →
  ∃ w',
    InstructionSystem.execute f w = Some w'
    ∧ executeSystems w' = executeSystems w
    ∧ soundAdded w' = soundAdded w
    ∧ globals w' = globals w
    ∧ all_well_formed w'
    ∧ ∀ k, button_at k w' = button_at k w.
Proof.
  intros Hwf.
  destruct (forEach_pure_total cHandsInstructionText
              (λ _ e, InstructionSystem.on_entity
                        (InstructionSystem.anyVisible (controllers f)) e) w)
    as [w' Hw'].
  { intros i e He Ht.
    well_formed_at Hwf He as (_ & _ & Hobj & _).
    destruct (Hobj Ht) as [o Ho].
    unfold InstructionSystem.on_entity. by rewrite Ho. }
  exists w'. split; [done|].
  assert (all_well_formed w') as Hwf'.
  { eapply forEach_pure_Forall; [|exact Hwf|exact Hw'].
    intros i e e' _ He. by apply instruction_on_entity in He as [_ ?]. }
  apply forEach_pure in Hw' as (Hg & Hsys & Hsound & Hlen & Hlook).
  repeat split; try done.
  intros k. unfold button_at.
  destruct (entities w !! k) as [e|] eqn:He.
  - destruct (Hlook k e He) as (e' & -> & Hq). simpl.
    destruct (cHandsInstructionText e); [|by subst].
    by apply instruction_on_entity in Hq as [? _].
  - apply lookup_ge_None in He. rewrite <- Hlen in He.
    apply lookup_ge_None in He. by rewrite He.
Qed.

(** *** CalibrationSystem *)

Lemma calibration_on_entity f e e' :
  CalibrationSystem.on_entity f e = Some e' → cButton e' = cButton e.
Proof.
  unfold CalibrationSystem.on_entity.
  destruct (session f); [|by intros; simplify_eq].
  destruct (cOffsetFromCamera e); [|done].
  destruct (cObject3D e); [|done]. simpl. by intros; simplify_eq.
Qed.

Lemma calibration_step f w :
  all_well_formed w →
  ∃ w',
    CalibrationSystem.execute f w = Some w'
    ∧ executeSystems w' = executeSystems w
    ∧ soundAdded w' = soundAdded w
    ∧ globals w' = globals w
    ∧ all_well_formed w'
    ∧ ∀ k, button_at k w' = button_at k w.
Proof.
  intros Hwf. destruct (calibration_total f w Hwf) as [w' Hw'].
  exists w'. split; [done|].
  pose proof (calibration_keeps_well_formed f w w' Hw' Hwf) as Hwf'.
  rewrite calibration_execute in Hw'.
  apply forEach_pure in Hw' as (Hg & Hsys & Hsound & Hlen & Hlook).
  repeat split; try done.
  intros k. unfold button_at.
  destruct (entities w !! k) as [e|] eqn:He.
  - destruct (Hlook k e He) as (e' & -> & Hq). simpl.
    destruct (cNeedCalibration e); [|by subst].
    unfold calibrate_reached in Hq.
    destruct (reached k (entities w)); [|by simplify_eq].
    by apply calibration_on_entity in Hq.
  - apply lookup_ge_None in He. rewrite <- Hlen in He.
    apply lookup_ge_None in He. by rewrite He.
Qed.

(** *** FingerInputSystem *)

Lemma press_button (dt : float) (hs : list HandReading) b (o : Mesh) :
  ∃ s, (FingerInputSystem.press dt hs b o).1 = set_currState s b.
Proof.
  unfold FingerInputSystem.press.
  repeat match goal with
         | |- context [if ?c then _ else _] => destruct c
         end; simpl; by eexists.
Qed.

Lemma finger_on_entity (dt : float) (hs : list HandReading) e e' :
  FingerInputSystem.on_entity dt hs e = Some e' →
  (well_formed e = true → well_formed e' = true)
  ∧ ∃ b s, cButton e = Some b ∧ cButton e' = Some (set_currState s b).
Proof.
  unfold FingerInputSystem.on_entity.
  destruct (cButton e) as [b|]; [|done].
  destruct (cObject3D e) as [o|] eqn:Ho; [|done]. simpl.
  destruct (press_button dt hs b o) as [s Hs].
  destruct (FingerInputSystem.press dt hs b o) as [b' o']. simpl in Hs.
  intros; simplify_eq. split.
  - intros Hwf. apply well_formed_set_Button; [by eexists|].
    by apply well_formed_set_Object3D.
  - by eexists _, _.
Qed.

Lemma finger_step f w :
  all_well_formed w →
  ∃ w',
    FingerInputSystem.execute f w = Some w'
    ∧ executeSystems w' = executeSystems w
    ∧ soundAdded w' = soundAdded w
    ∧ globals w' = globals w
    ∧ all_well_formed w'
    ∧ ∀ k b, button_at k w = Some b →
             ∃ s, button_at k w' = Some (set_currState s b).
Proof.
  intros Hwf.
  destruct (forEach_pure_total cPressable
              (λ k e, FingerInputSystem.on_entity (delta f) (hands f k) e) w)
    as [w' Hw'].
  { intros i e He Hp.
    well_formed_at Hwf He as (_ & Hpress & _ & _).
    destruct (Hpress Hp) as [[b Hb] [o Ho]].
    unfold FingerInputSystem.on_entity. rewrite Hb, Ho. simpl.
    by destruct (FingerInputSystem.press _ _ b o). }
  exists w'. split; [done|].
  assert (all_well_formed w') as Hwf'.
  { eapply forEach_pure_Forall; [|exact Hwf|exact Hw'].
    intros i e e' _ He. by apply finger_on_entity in He as [? _]. }
  apply forEach_pure in Hw' as (Hg & Hsys & Hsound & Hlen & Hlook).
  repeat split; try done.
  intros k b Hb. apply button_at_Some in Hb as (e & He & Hb).
  destruct (Hlook k e He) as (e' & He' & Hq).
  rewrite (button_at_lookup k w' e' He').
  destruct (cPressable e).
  - apply finger_on_entity in Hq as (_ & b0 & s & Hb0 & Hb').
    exists s. congruence.
  - subst. exists (currState b). rewrite Hb. by destruct b.
Qed.

(** *** ButtonSystem *)

Lemma button_on_entity_inv (ps rs : option Audio) (k : nat) e e'
      (g g' : Globals) :
  ButtonSystem.on_entity ps rs k e g = Some (e', g') →
  ∃ b m b',
    cButton e = Some b
    ∧ cObject3D e = Some m
    ∧ e' = set_Button b' e
    ∧ currState b' = resting
    ∧ prevState b' = currState b
    ∧ releaseSound b' = match rs with
                        | Some a => Some a
                        | None => releaseSound b
                        end
    ∧ (∀ j, count_events (is_ActionCall j) (trace g')
            = count_events (is_ActionCall j) (trace g)
              + if bool_decide (k = j) && rising fully_pressed b
                then 1 else 0)
    ∧ (∀ j, count_events (is_ReleaseSoundPlay j) (trace g')
            = count_events (is_ReleaseSoundPlay j) (trace g)
              + if bool_decide (k = j) && rising recovering b
                   && bool_decide (is_Some (releaseSound b'))
                then 1 else 0).
Proof.
  intros Hcb.
  destruct (cButton e) as [b|] eqn:Hb;
    [|by unfold ButtonSystem.on_entity in Hcb; rewrite Hb in Hcb].
  destruct (cObject3D e) as [m|] eqn:Hm;
    [|by unfold ButtonSystem.on_entity in Hcb; rewrite Hb, Hm in Hcb].
  destruct (button_on_entity ps rs k e g b m Hb Hm)
    as (b' & g0 & Hcb' & Hfacts).
  rewrite Hcb in Hcb'. simplify_eq. by exists b, m, b'.
Qed.

Lemma button_step f w :
  all_well_formed w →
  ∃ w',
    ButtonSystem.execute f w = Some w'
    ∧ executeSystems w' = executeSystems w
    ∧ all_well_formed w'
    ∧ ∀ k b, button_at k w = Some b →
             ∃ b',
               button_at k w' = Some b'
               ∧ currState b' = resting
               ∧ prevState b' = currState b
               ∧ (is_Some (releaseSound b) → is_Some (releaseSound b'))
               ∧ count (is_ActionCall k) w'
                 = count (is_ActionCall k) w
                   + (if rising fully_pressed b then 1 else 0)
               ∧ (is_Some (releaseSound b) →
                  count (is_ReleaseSoundPlay k) w'
                  = count (is_ReleaseSoundPlay k) w
                    + (if rising recovering b then 1 else 0)).
Proof.
  intros Hwf. unfold ButtonSystem.execute.
  set (create := session f && negb (soundAdded w)).
  set (ps := if create then Some buttonPressSound else None).
  set (rs := if create then Some buttonReleaseSound else None).
  set (w0 := mkWorld (entities w) (executeSystems w)
                     (if create then true else soundAdded w) (globals w)).
  destruct (forEach_total has_Button (ButtonSystem.on_entity ps rs) w0)
    as [w' Hw'].
  { intros i e g He Hq. simpl in He.
    well_formed_at Hwf He as (Hobj & _).
    unfold has_Button in Hq. apply bool_decide_eq_true in Hq.
    destruct Hq as [b Hb]. destruct Hobj as [m Hm]; [by eexists|].
    destruct (button_on_entity ps rs i e g b m Hb Hm) as (? & ? & -> & _).
    done. }
  exists w'. split; [done|].
  assert (all_well_formed w') as Hwf'.
  { eapply (forEach_Forall _ _ _ w0); [|exact Hwf|exact Hw'].
    intros i e g e' g' _ Hcb He_wf.
    apply button_on_entity_inv in Hcb as (b & m & b' & _ & Hm & -> & _).
    apply well_formed_set_Button; [by eexists|done]. }
  pose proof (forEach_lookup _ _ _ _ Hw') as (Hsys & _ & _ & Hlook).
  split; [done|]. split; [done|].
  intros k b Hb. apply button_at_Some in Hb as (e & He & Hb).
  destruct (Hlook k e He) as (e' & He' & Hq).
  assert (has_Button e = true) as Hhas.
  { unfold has_Button. apply bool_decide_eq_true. by eexists. }
  rewrite Hhas in Hq. destruct Hq as (gi & gi' & Hcb).
  apply button_on_entity_inv in Hcb
    as (b0 & m & b' & Hb0 & Hm & -> & Hcurr & Hprev & Hrel & _).
  assert (b0 = b) as -> by congruence.
  exists b'. rewrite (button_at_lookup k w' _ He'). simpl.
  split; [done|]. split; [done|]. split; [done|]. split.
  { intros Hsome. rewrite Hrel. by destruct rs. }
  split.
  - unfold count.
    rewrite (forEach_measure has_Button (ButtonSystem.on_entity ps rs)
               (λ g, count_events (is_ActionCall k) (trace g)) k
               (λ e, match cButton e with
                     | Some b => if rising fully_pressed b then 1 else 0
                     | None => 0
                     end) w0 w'); [|clear -ps|done].
    + simpl. by rewrite He, Hhas, Hb.
    + intros k0 e0 g e0' g' _ Hcb.
      apply button_on_entity_inv in Hcb
        as (b1 & m1 & b1' & Hb1 & _ & _ & _ & _ & _ & Hact & _).
      rewrite Hact, Hb1. by destruct (bool_decide (k0 = k)).
  - intros Hsome. unfold count.
    rewrite (forEach_measure has_Button (ButtonSystem.on_entity ps rs)
               (λ g, count_events (is_ReleaseSoundPlay k) (trace g)) k
               (λ e, match cButton e with
                     | Some b =>
                         if rising recovering b
                            && bool_decide
                                 (is_Some (match rs with
                                           | Some a => Some a
                                           | None => releaseSound b
                                           end))
                         then 1 else 0
                     | None => 0
                     end) w0 w'); [|clear -ps|done].
    + simpl. rewrite He, Hhas, Hb.
      replace (bool_decide _) with true; [by rewrite andb_true_r|].
      symmetry. apply bool_decide_eq_true. by destruct rs.
    + intros k0 e0 g e0' g' _ Hcb.
      apply button_on_entity_inv in Hcb
        as (b1 & m1 & b1' & Hb1 & _ & _ & _ & _ & Hrel1 & _ & Hplay).
      rewrite Hplay, Hb1, Hrel1.
      by destruct (bool_decide (k0 = k)).
Qed.

End Systems.

(** ** Frames *)

Section Frames.

Implicit Types (f : Frame) (w : World) (b : Button).

(** With the systems [init] registers, a frame runs them in the order of
    registration. *)
Lemma World_execute_wired f w :
  executeSystems w = executeSystems Init.world →
  World_execute f w
  = (w ← InstructionSystem.execute f w;
     w ← CalibrationSystem.execute f w;
     w ← ButtonSystem.execute f w;
     FingerInputSystem.execute f w).
Proof.
  intros Hsys. unfold World_execute. rewrite Hsys. simpl.
  destruct (InstructionSystem.execute f w) as [w1|]; [simpl|done].
  destruct (CalibrationSystem.execute f w1) as [w2|]; [simpl|done].
  destruct (ButtonSystem.execute f w2) as [w3|]; [simpl|done].
  by destruct (FingerInputSystem.execute f w3).
Qed.

(** One frame, seen from the k-th entity's button. *)
Lemma frame_step f w :
  wired w →
  ∃ w',
    World_execute f w = Some w'
    ∧ wired w'
    ∧ ∀ k b, button_at k w = Some b →
             ∃ b',
               button_at k w' = Some b'
               ∧ prevState b' = currState b
               ∧ (is_Some (releaseSound b) → is_Some (releaseSound b'))
               ∧ count (is_ActionCall k) w'
                 = count (is_ActionCall k) w
                   + (if rising fully_pressed b then 1 else 0)
               ∧ (is_Some (releaseSound b) →
                  count (is_ReleaseSoundPlay k) w'
                  = count (is_ReleaseSoundPlay k) w
                    + (if rising recovering b then 1 else 0)).
Proof.
  intros [Hsys Hwf]. rewrite World_execute_wired by done.
  destruct (instruction_step f w Hwf)
    as (w1 & -> & Hsys1 & _ & Hg1 & Hwf1 & Hb1). simpl.
  destruct (calibration_step f w1 Hwf1)
    as (w2 & -> & Hsys2 & _ & Hg2 & Hwf2 & Hb2). simpl.
  destruct (button_step f w2 Hwf2) as (w3 & -> & Hsys3 & Hwf3 & Hb3). simpl.
  destruct (finger_step f w3 Hwf3)
    as (w4 & -> & Hsys4 & _ & Hg4 & Hwf4 & Hb4).
  exists w4. split; [done|]. split.
  { split; [congruence|done]. }
  intros k b Hb. rewrite <- Hb1, <- Hb2 in Hb.
  destruct (Hb3 k b Hb) as (b3 & Hb3' & _ & Hprev & Hrel & Hact & Hplay).
  destruct (Hb4 k b3 Hb3') as (s & Hb4').
  exists (set_currState s b3). split; [done|]. split; [done|].
  split; [done|]. unfold count in *. rewrite Hg4.
  rewrite <- Hg1, <- Hg2. by split.
Qed.

Lemma rising_decide (s : ButtonState) b :
  (if decide (Some (currState b) = Some s ∧ Some (prevState b) ≠ Some s)
   then 1 else 0)
  = if rising s b then 1 else 0.
Proof.
  unfold rising.
  destruct (decide (currState b = s)) as [Hc|Hc],
           (decide (prevState b = s)) as [Hp|Hp].
  - rewrite !bool_decide_eq_true_2 by done. simpl.
    rewrite decide_False; [done|]. intros [_ H]. by apply H; f_equal.
  - rewrite bool_decide_eq_true_2, bool_decide_eq_false_2 by done. simpl.
    rewrite decide_True; [done|]. split; congruence.
  - rewrite bool_decide_eq_false_2 by done. simpl.
    rewrite decide_False; [done|]. intros [H _]. congruence.
  - rewrite bool_decide_eq_false_2 by done. simpl.
    rewrite decide_False; [done|]. intros [H _]. congruence.
Qed.

(** Over a sequence of frames, the number of calls of the k-th entity's
    action is the number of rising edges into [fully_pressed] among the
    states [ButtonSystem] reads, and likewise for the release sound. *)
Lemma animate_edges (fs : list Frame) w (k : nat) b :
  wired w →
  button_at k w = Some b →
  ∃ w',
    animate fs w = Some w'
    ∧ wired w'
    ∧ count (is_ActionCall k) w'
      = count (is_ActionCall k) w
        + rising_edges (Some fully_pressed) (Some (prevState b)) (seen k fs w)
    ∧ (is_Some (releaseSound b) →
       count (is_ReleaseSoundPlay k) w'
       = count (is_ReleaseSoundPlay k) w
         + rising_edges (Some recovering) (Some (prevState b)) (seen k fs w)).
Proof.
  revert w b. induction fs as [|f fs IH]; intros w b Hw Hb; simpl.
  - exists w. split; [done|]. split; [done|]. split; [lia|]. intros _. lia.
  - destruct (frame_step f w Hw) as (w1 & -> & Hw1 & Hstep). simpl.
    destruct (Hstep k b Hb) as (b1 & Hb1 & Hprev & Hrel & Hact & Hplay).
    destruct (IH w1 b1 Hw1 Hb1) as (w' & Hrun & Hw' & Hact' & Hplay').
    exists w'. split; [done|]. split; [done|].
    rewrite Hb. simpl. rewrite !rising_decide, Hprev in *.
    split; [lia|]. intros Hsome.
    rewrite Hplay', Hplay by auto. lia.
Qed.

(** Rising edges count maximal runs. *)
Lemma rising_edges_runs {A} `{EqDecision A} (a : A) (l : list A) :
  (∀ p, p ≠ a → rising_edges a p l = runs a l)
  ∧ S (rising_edges a a l) = runs a (a :: l).
Proof.
  induction l as [|x l [IH1 IH2]].
  - split; [done|]. simpl. by rewrite decide_True.
  - split.
    + intros p Hp. simpl. destruct (decide (x = a)) as [->|Hx].
      * rewrite decide_True by done. simpl in IH2.
        rewrite decide_True in IH2 by done. simpl. by rewrite IH2.
      * rewrite decide_False by (by intros [? _]). simpl. by apply IH1.
    + cbn [rising_edges runs]. rewrite (decide_True (P := a = a)) by done.
      rewrite decide_False by (by intros [_ ?]).
      destruct (decide (x = a)) as [->|Hx]; simpl.
      * simpl in IH2. rewrite decide_True in IH2 by done. by rewrite IH2.
      * by rewrite IH1.
Qed.

Lemma rising_bool_decide (s : ButtonState) b :
  (if rising s b then 1 else 0)
  = if bool_decide (currState b = s ∧ prevState b ≠ s) then 1 else 0.
Proof.
  unfold rising.
  destruct (decide (currState b = s)) as [Hc|Hc],
           (decide (prevState b = s)) as [Hp|Hp].
  - rewrite !bool_decide_eq_true_2 by done. simpl.
    rewrite bool_decide_eq_false_2; [done|]. by intros [_ ?].
  - rewrite bool_decide_eq_true_2, bool_decide_eq_false_2 by done. simpl.
    by rewrite bool_decide_eq_true_2.
  - rewrite bool_decide_eq_false_2 by done. simpl.
    rewrite bool_decide_eq_false_2; [done|]. by intros [? _].
  - rewrite bool_decide_eq_false_2 by done. simpl.
    rewrite bool_decide_eq_false_2; [done|]. by intros [? _].
Qed.

(** C4: in a wired world, for the k-th entity's button:
    - every frame succeeds, leaves the world wired, and calls the action
      exactly once if [ButtonSystem] reads [currState == fully_pressed]
      with [prevState != fully_pressed], and not at all otherwise (so not
      when it reads [pressed], and not when [prevState] is [fully_pressed]
      already); the state read becomes the next frame's [prevState];
    - starting from a [prevState] other than [fully_pressed], over any
      sequence of frames the number of calls of the action is the number
      of maximal contiguous runs of [fully_pressed] among the states
      [ButtonSystem] read. *)
Theorem action_once_per_full_press (k : nat) (fs : list Frame) w b :
  wired w →
  button_at k w = Some b →
  (∀ f, ∃ w1 b1,
      World_execute f w = Some w1
      ∧ wired w1
      ∧ button_at k w1 = Some b1
      ∧ prevState b1 = currState b
      ∧ count (is_ActionCall k) w1
        = count (is_ActionCall k) w
          + if bool_decide (currState b = fully_pressed
                            ∧ prevState b ≠ fully_pressed)
            then 1 else 0)
  ∧ (prevState b ≠ fully_pressed →
     ∃ w',
       animate fs w = Some w'
       ∧ count (is_ActionCall k) w'
         = count (is_ActionCall k) w
           + runs (Some fully_pressed) (seen k fs w)).
Proof.
  intros Hw Hb. split.
  - intros f. destruct (frame_step f w Hw) as (w1 & Hw1 & Hwired & Hstep).
    destruct (Hstep k b Hb) as (b1 & Hb1 & Hp & _ & Hact & _).
    exists w1, b1. repeat split; try done; try apply Hwired.
    by rewrite Hact, rising_bool_decide.
  - intros Hprev.
    destruct (animate_edges fs w k b Hw Hb) as (w' & Hrun & _ & Hact & _).
    exists w'. split; [done|]. rewrite Hact.
    by rewrite (proj1 (rising_edges_runs _ _)) by congruence.
Qed.

(** C5: in a wired world, for the k-th entity's button with a release
    sound bound:
    - every frame succeeds, leaves the world wired and the sound bound,
      and plays the release sound exactly once if [ButtonSystem] reads
      [currState == recovering] with [prevState != recovering], and not at
      all otherwise;
    - starting from a [prevState] other than [recovering], over any
      sequence of frames the number of times the release sound is played
      is the number of maximal contiguous runs of [recovering] among the
      states [ButtonSystem] read. *)
Theorem release_sound_once_per_recovery (k : nat) (fs : list Frame) w b :
  wired w →
  button_at k w = Some b →
  is_Some (releaseSound b) →
  (∀ f, ∃ w1 b1,
      World_execute f w = Some w1
      ∧ wired w1
      ∧ button_at k w1 = Some b1
      ∧ is_Some (releaseSound b1)
      ∧ prevState b1 = currState b
      ∧ count (is_ReleaseSoundPlay k) w1
        = count (is_ReleaseSoundPlay k) w
          + if bool_decide (currState b = recovering
                            ∧ prevState b ≠ recovering)
            then 1 else 0)
  ∧ (prevState b ≠ recovering →
     ∃ w',
       animate fs w = Some w'
       ∧ count (is_ReleaseSoundPlay k) w'
         = count (is_ReleaseSoundPlay k) w
           + runs (Some recovering) (seen k fs w)).
Proof.
  intros Hw Hb Hsound. split.
  - intros f. destruct (frame_step f w Hw) as (w1 & Hw1 & Hwired & Hstep).
    destruct (Hstep k b Hb) as (b1 & Hb1 & Hp & Hrel & _ & Hplay).
    exists w1, b1. repeat split; try done; try apply Hwired; try by apply Hrel.
    by rewrite Hplay, rising_bool_decide.
  - intros Hprev.
    destruct (animate_edges fs w k b Hw Hb) as (w' & Hrun & _ & _ & Hplay).
    exists w'. split; [done|]. rewrite Hplay by done.
    by rewrite (proj1 (rising_edges_runs _ _)) by congruence.
Qed.

End Frames.

(** ** InstructionSystem commutes with the other systems *)

Section Fusion.

Context (q1 : Entity → bool) (h : nat → Entity → option Entity)
        (q2 : Entity → bool)
        (cb : nat → Entity → Globals → option (Entity * Globals)).

Lemma forEach_from_every_cons c (k : nat) (e : Entity) (es : list Entity)
      (g : Globals) :
  forEach_from every c k (e :: es) g
  = (r ← c k e g;
     rs ← forEach_from every c (S k) es r.2;
     Some (r.1 :: rs.1, rs.2)).
Proof. reflexivity. Qed.

Lemma pure_then_eq (k : nat) (e : Entity) (g : Globals) :
  pure_then q1 h q2 cb k e g
  = (e1 ← (if q1 e then h k e else Some e);
     if q2 e1 then cb k e1 g else Some (e1, g)).
Proof. reflexivity. Qed.

Lemma then_pure_eq (k : nat) (e : Entity) (g : Globals) :
  then_pure q2 cb q1 h k e g
  = (r ← (if q2 e then cb k e g else Some (e, g));
     e2 ← (if q1 r.1 then h k r.1 else Some r.1);
     Some (e2, r.2)).
Proof. reflexivity. Qed.

(** A pure iteration does not look at the globals. *)
Lemma forEach_from_pure_globals (k : nat) (es : list Entity) (g g' : Globals) :
  forEach_from q1 (pure_callback h) k es g'
  = (λ r, (r.1, g')) <$> forEach_from q1 (pure_callback h) k es g.
Proof.
  revert k. induction es as [|e0 es IH]; intros k; [done|].
  rewrite !forEach_from_cons, !pure_callback_eq.
  destruct (q1 e0); [destruct (h k e0) as [e1|]; simpl; [|done]|simpl].
  - rewrite IH. by destruct (forEach_from _ _ _ es g) as [[? ?]|].
  - rewrite IH. by destruct (forEach_from _ _ _ es g) as [[? ?]|].
Qed.

Lemma forEach_from_pure_same (k : nat) (es : list Entity) (g : Globals) r :
  forEach_from q1 (pure_callback h) k es g = Some r → r.2 = g.
Proof. intros Hr. by apply forEach_from_pure in Hr as [? _]. Qed.

Lemma fuse_pure_first (k : nat) (es : list Entity) (g : Globals) :
  (r ← forEach_from q1 (pure_callback h) k es g; forEach_from q2 cb k r.1 r.2)
  = forEach_from every (pure_then q1 h q2 cb) k es g.
Proof.
  revert k g. induction es as [|e0 es IH]; intros k g; [done|].
  rewrite forEach_from_every_cons, forEach_from_cons, pure_callback_eq,
    pure_then_eq.
  destruct (if q1 e0 then h k e0 else Some e0) as [e1|] eqn:H1.
  - replace (if q1 e0 then e' ← h k e0; Some (e', g) else Some (e0, g))
      with (Some (e1, g))
      by (destruct (q1 e0); [by rewrite H1|by simplify_eq]).
    cbn [mbind option_bind fst snd].
    destruct (forEach_from q1 (pure_callback h) (S k) es g)
      as [[es1 g1]|] eqn:Hes.
    + apply forEach_from_pure_same in Hes as Hg. simpl in Hg. subst g1.
      cbn [mbind option_bind fst snd]. rewrite forEach_from_cons.
      destruct (if q2 e1 then cb k e1 g else Some (e1, g)) as [[e2 g2]|];
        cbn [mbind option_bind fst snd]; [|done].
      rewrite <- IH, (forEach_from_pure_globals (S k) es g g2), Hes. done.
    + cbn [mbind option_bind fst snd].
      destruct (if q2 e1 then cb k e1 g else Some (e1, g)) as [[e2 g2]|];
        cbn [mbind option_bind fst snd]; [|done].
      by rewrite <- IH, (forEach_from_pure_globals (S k) es g g2), Hes.
  - replace (if q1 e0 then e' ← h k e0; Some (e', g) else Some (e0, g))
      with (@None (Entity * Globals))
      by (destruct (q1 e0); [by rewrite H1|by simplify_eq]).
    done.
Qed.

Lemma fuse_pure_second (k : nat) (es : list Entity) (g : Globals) :
  (r ← forEach_from q2 cb k es g; forEach_from q1 (pure_callback h) k r.1 r.2)
  = forEach_from every (then_pure q2 cb q1 h) k es g.
Proof.
  revert k g. induction es as [|e0 es IH]; intros k g; [done|].
  rewrite forEach_from_every_cons, forEach_from_cons, then_pure_eq.
  destruct (if q2 e0 then cb k e0 g else Some (e0, g)) as [[e1 g1]|];
    cbn [mbind option_bind fst snd]; [|done].
  destruct (if q1 e1 then h k e1 else Some e1) as [e2|] eqn:H2;
    cbn [mbind option_bind fst snd].
  - rewrite <- IH. clear IH.
    destruct (forEach_from q2 cb (S k) es g1) as [[es1 g2]|];
      cbn [mbind option_bind fst snd]; [|done].
    rewrite forEach_from_cons, pure_callback_eq.
    replace (if q1 e1 then e' ← h k e1; Some (e', g2) else Some (e1, g2))
      with (Some (e2, g2))
      by (destruct (q1 e1); [by rewrite H2|by simplify_eq]).
    done.
  - destruct (forEach_from q2 cb (S k) es g1) as [[es1 g2]|];
      cbn [mbind option_bind fst snd]; [|done].
    rewrite forEach_from_cons, pure_callback_eq.
    replace (if q1 e1 then e' ← h k e1; Some (e', g2) else Some (e1, g2))
      with (@None (Entity * Globals))
      by (destruct (q1 e1); [by rewrite H2|by simplify_eq]).
    done.
Qed.

(** If the two callbacks commute on every entity, the two systems commute
    on every world. *)
Lemma forEach_commute (w : World) :
  (∀ k e g, pure_then q1 h q2 cb k e g = then_pure q2 cb q1 h k e g) →
  (w1 ← forEach q1 (pure_callback h) w; forEach q2 cb w1)
  = (w1 ← forEach q2 cb w; forEach q1 (pure_callback h) w1).
Proof.
  intros Hpoint. unfold forEach.
  pose proof (fuse_pure_first 0 (entities w) (globals w)) as H1.
  pose proof (fuse_pure_second 0 (entities w) (globals w)) as H2.
  rewrite (forEach_from_ext every _ _ 0 _ _ Hpoint), <- H2 in H1. clear H2.
  destruct (forEach_from q1 (pure_callback h) 0 (entities w) (globals w))
    as [[es1 g1]|];
    destruct (forEach_from q2 cb 0 (entities w) (globals w)) as [[es2 g2]|];
    cbn [mbind option_bind fst snd entities globals executeSystems soundAdded]
      in *.
  - by rewrite H1.
  - by rewrite H1.
  - by rewrite <- H1.
  - done.
Qed.

End Fusion.

Section Commute.


Lemma press_set_visible (dt : float) (hs : list HandReading) (b : Button)
      (o : Mesh) (v : bool) :
  FingerInputSystem.press dt hs b (set_visible v o)
  = ((FingerInputSystem.press dt hs b o).1,
     set_visible v (FingerInputSystem.press dt hs b o).2).
Proof.
  unfold FingerInputSystem.press. cbv zeta.
  destruct (bool_decide _); simpl.
  - by destruct (_ <? _)%float.
  - destruct (0 <? _)%float; simpl; by destruct (_ <=? _)%float.
Qed.

Lemma instruction_calibration_entity (v : bool) (f : Frame)
      (es : list Entity) k e g :
  pure_then cHandsInstructionText (λ _ e, InstructionSystem.on_entity v e)
            cNeedCalibration
            (pure_callback (calibrate_reached f es)) k e g
  = then_pure cNeedCalibration
              (pure_callback (calibrate_reached f es))
              cHandsInstructionText (λ _ e, InstructionSystem.on_entity v e) k e g.
Proof.
  unfold pure_then, then_pure, pure_callback, calibrate_reached,
    InstructionSystem.on_entity, CalibrationSystem.on_entity.
  destruct e as [o b p t off n]; simpl.
  destruct (reached k es), t, n, (session f), off, o; reflexivity.
Qed.

(** [InstructionSystem] leaves the calibration markers where they are. *)
Lemma instruction_keeps_marks (f : Frame) (w w1 : World) :
  InstructionSystem.execute f w = Some w1 →
  Forall2 (λ e1 e2, cNeedCalibration e1 = cNeedCalibration e2)
          (entities w1) (entities w).
Proof.
  intros Hw1. apply forEach_pure in Hw1 as (_ & _ & _ & Hlen & Hlook).
  apply Forall2_same_length_lookup. split; [done|].
  intros i e1 e He1 He. destruct (Hlook i e He) as (e' & He' & Hq).
  simplify_eq. destruct (cHandsInstructionText e); [|by subst].
  unfold InstructionSystem.on_entity in Hq.
  destruct (cObject3D e); by simplify_eq/=.
Qed.

Lemma instruction_finger_entity (v : bool) (f : Frame) k e g :
  pure_then cHandsInstructionText (λ _ e, InstructionSystem.on_entity v e)
            cPressable
            (pure_callback
               (λ k e, FingerInputSystem.on_entity (delta f) (hands f k) e))
            k e g
  = then_pure cPressable
              (pure_callback
                 (λ k e, FingerInputSystem.on_entity (delta f) (hands f k) e))
              cHandsInstructionText (λ _ e, InstructionSystem.on_entity v e) k e g.
Proof.
  unfold pure_then, then_pure, pure_callback, InstructionSystem.on_entity,
    FingerInputSystem.on_entity.
  destruct e as [o b p t off n].
  destruct t, p, b as [b|], o as [o|];
    cbn -[set_visible FingerInputSystem.press]; try reflexivity.
  all: rewrite ?press_set_visible;
    by destruct (FingerInputSystem.press (delta f) (hands f k) b o).
Qed.

Lemma instruction_button_entity (v : bool) (ps rs : option Audio) k e g :
  pure_then cHandsInstructionText (λ _ e, InstructionSystem.on_entity v e)
            has_Button (ButtonSystem.on_entity ps rs) k e g
  = then_pure has_Button (ButtonSystem.on_entity ps rs)
              cHandsInstructionText (λ _ e, InstructionSystem.on_entity v e) k e g.
Proof.
  unfold pure_then, then_pure, InstructionSystem.on_entity,
    ButtonSystem.on_entity, has_Button.
  destruct e as [o b p t off n]; simpl.
  destruct t, b as [b|], o as [o|]; simpl; reflexivity.
Qed.

Lemma instruction_calibration (f : Frame) (w : World) :
  (w1 ← InstructionSystem.execute f w; CalibrationSystem.execute f w1)
  = (w1 ← CalibrationSystem.execute f w; InstructionSystem.execute f w1).
Proof.
  pose proof (forEach_commute cHandsInstructionText
                (λ _ e, InstructionSystem.on_entity
                          (InstructionSystem.anyVisible (controllers f)) e)
                cNeedCalibration
                (pure_callback (calibrate_reached f (entities w))) w
                (instruction_calibration_entity _ _ _)) as Hcomm.
  fold (InstructionSystem.execute f w) in Hcomm.
  rewrite (calibration_execute f w). etrans; [|exact Hcomm].
  destruct (InstructionSystem.execute f w) as [w1|] eqn:Hw1; [|done].
  cbn [mbind option_bind]. rewrite calibration_execute.
  apply forEach_ext. intros k e g. rewrite !pure_callback_eq.
  unfold calibrate_reached, reached.
  by rewrite (marked_before_same k (entities w1) (entities w))
    by (by eapply instruction_keeps_marks).
Qed.

Lemma instruction_finger (f : Frame) (w : World) :
  (w1 ← InstructionSystem.execute f w; FingerInputSystem.execute f w1)
  = (w1 ← FingerInputSystem.execute f w; InstructionSystem.execute f w1).
Proof. apply forEach_commute, instruction_finger_entity. Qed.

Lemma forEach_set_soundAdded q cb (s : bool) (w : World) :
  forEach q cb (set_soundAdded s w) = set_soundAdded s <$> forEach q cb w.
Proof.
  unfold forEach. simpl.
  by destruct (forEach_from q cb 0 (entities w) (globals w)).
Qed.

Lemma instruction_button (f : Frame) (w : World) :
  (w1 ← InstructionSystem.execute f w; ButtonSystem.execute f w1)
  = (w1 ← ButtonSystem.execute f w; InstructionSystem.execute f w1).
Proof.
  unfold ButtonSystem.execute.
  set (create := λ w : World, session f && negb (soundAdded w)).
  set (ps := λ w, if create w then Some buttonPressSound else None).
  set (rs := λ w, if create w then Some buttonReleaseSound else None).
  set (s' := λ w, if create w then true else soundAdded w).
  change ((w1 ← InstructionSystem.execute f w;
           forEach has_Button (ButtonSystem.on_entity (ps w1) (rs w1))
                   (set_soundAdded (s' w1) w1))
          = (w1 ← forEach has_Button (ButtonSystem.on_entity (ps w) (rs w))
                          (set_soundAdded (s' w) w);
             InstructionSystem.execute f w1)).
  assert (∀ w1, InstructionSystem.execute f w = Some w1 →
                ps w1 = ps w ∧ rs w1 = rs w ∧ s' w1 = s' w) as Hsame.
  { intros w1 Hw1. apply forEach_pure in Hw1 as (_ & _ & Hs & _).
    unfold ps, rs, s', create. by rewrite Hs. }
  pose proof (forEach_commute cHandsInstructionText
                (λ _ e, InstructionSystem.on_entity
                          (InstructionSystem.anyVisible (controllers f)) e)
                has_Button (ButtonSystem.on_entity (ps w) (rs w)) w
                (instruction_button_entity _ _ _)) as Hcomm.
  fold (InstructionSystem.execute f w) in Hcomm.
  rewrite forEach_set_soundAdded.
  destruct (InstructionSystem.execute f w) as [w1|] eqn:Hw1; simpl in *.
  - destruct (Hsame w1 eq_refl) as (-> & -> & ->).
    rewrite forEach_set_soundAdded, Hcomm.
    destruct (forEach has_Button _ w) as [w2|]; simpl; [|done].
    unfold InstructionSystem.execute. by rewrite forEach_set_soundAdded.
  - destruct (forEach has_Button _ w) as [w2|]; simpl in *; [|done].
    unfold InstructionSystem.execute in *.
    by rewrite forEach_set_soundAdded, <- Hcomm.
Qed.

End Commute.

(** ** The order of the systems in a frame *)

(** C3 as stated fails: [init] registers [InstructionSystem] first, and the
    world runs the systems in the order of registration. *)
Lemma instructions_run_first :
  execution_order Init.world
  = [InstructionSystem; CalibrationSystem; ButtonSystem; FingerInputSystem]
  ∧ execution_order Init.world ≠ spec_order.
Proof. split; [reflexivity|discriminate]. Qed.

(** C3, amended: each frame the four systems run in the order
    [InstructionSystem], [CalibrationSystem], [ButtonSystem],
    [FingerInputSystem], and the step of the world is the composition of
    the four system steps in that order. [InstructionSystem] only writes
    visibility flags, which no other system reads, so the step of the world
    is also equal to the composition in the order calibration, buttons,
    finger input, instructions. *)
Theorem frame_order (f : Frame) (w : World) :
  executeSystems w = executeSystems Init.world →
  execution_order w
  = [InstructionSystem; CalibrationSystem; ButtonSystem; FingerInputSystem]
  ∧ World_execute f w
    = (w ← InstructionSystem.execute f w;
       w ← CalibrationSystem.execute f w;
       w ← ButtonSystem.execute f w;
       FingerInputSystem.execute f w)
  ∧ World_execute f w = spec_frame f w.
Proof.
  intros Hsys. split; [by unfold execution_order; rewrite Hsys|].
  split; [by apply World_execute_wired|].
  rewrite World_execute_wired by done. unfold spec_frame.
  transitivity ((InstructionSystem.execute f w ≫= CalibrationSystem.execute f)
                  ≫= λ w, w ← ButtonSystem.execute f w;
                          FingerInputSystem.execute f w).
  { by destruct (InstructionSystem.execute f w). }
  rewrite instruction_calibration.
  destruct (CalibrationSystem.execute f w) as [w1|]; simpl; [|done].
  transitivity ((InstructionSystem.execute f w1 ≫= ButtonSystem.execute f)
                  ≫= FingerInputSystem.execute f).
  { by destruct (InstructionSystem.execute f w1). }
  rewrite instruction_button.
  destruct (ButtonSystem.execute f w1) as [w2|]; simpl; [|done].
  apply instruction_finger.
Qed.

Lemma frame_order_witness :
  execution_order Init.world
  = [InstructionSystem; CalibrationSystem; ButtonSystem; FingerInputSystem]
  ∧ World_execute Scenario.untracked Init.world
    = (w ← InstructionSystem.execute Scenario.untracked Init.world;
       w ← CalibrationSystem.execute Scenario.untracked w;
       w ← ButtonSystem.execute Scenario.untracked w;
       FingerInputSystem.execute Scenario.untracked w)
  ∧ World_execute Scenario.untracked Init.world
    = spec_frame Scenario.untracked Init.world.
Proof. apply (frame_order Scenario.untracked Init.world). reflexivity. Defined.


(** ** Scenarios run on the whole world *)

Section Scenarios.

Local Open Scope float_scope.
Lemma wired_world : wired Init.world.
Proof. split; [reflexivity|]. repeat constructor. Qed.

(** Holding the button down is a fixed point of the frame. *)
Lemma hold_again (w2 : World) :
  animate [Scenario.touch; Scenario.hold] Scenario.specWorld = Some w2 →
  ∀ n, animate (repeat Scenario.hold n) w2 = Some w2.
Proof.
  intros Hw2. vm_compute in Hw2. injection Hw2 as <-.
  induction n as [|n IH]; [done|].
  change (animate (repeat Scenario.hold (S n)) ?w)
    with (w' ← World_execute Scenario.hold w;
          animate (repeat Scenario.hold n) w').
  match goal with
  | |- (w' ← World_execute Scenario.hold ?w; _) = _ =>
      assert (World_execute Scenario.hold w = Some w) as ->
          by (vm_compute; reflexivity)
  end.
  exact IH.
Qed.

(** C8: the button of the scenario ([restingY = 0], [surfaceY = 0.05],
    [fullPressDistance = 0.02], at [position.y = 0]) and one frame in which
    exactly one hand is in contact, at pressing distance [0.025]:
    - the frame leaves [position.y = -0.02] and the state [fully_pressed];
    - however many frames the finger then stays on the button, the action
      has been called exactly once, and the button stays where it is;
    - when the finger is lifted, after two such frames or at once, the
      button recovers and comes to rest at [position.y = 0], and the action
      has been called exactly once. *)
Theorem full_press_scenario :
  FingerInputSystem.pressingDistances
    (Init.newButton obAction 0.05 0.4 0.02) [Some 0.025; None] = [0.025]
  ∧ (∃ w1,
       World_execute Scenario.touch Scenario.specWorld = Some w1
       ∧ (button_at 0 w1 ≫= restingY) = Some 0
       ∧ (entities w1 !! 0%nat ≫= entity_y) = Some (-0.02)
       ∧ (entities w1 !! 0%nat ≫= entity_state) = Some fully_pressed)
  ∧ (∀ n, ∃ w2,
       animate (Scenario.touch :: Scenario.hold :: repeat Scenario.hold n)
               Scenario.specWorld = Some w2
       ∧ count (is_ActionCall 0) w2 = 1%nat
       ∧ (entities w2 !! 0%nat ≫= entity_y) = Some (-0.02)
       ∧ (entities w2 !! 0%nat ≫= entity_state) = Some fully_pressed)
  ∧ (∃ w3,
       animate ([Scenario.touch; Scenario.hold; Scenario.hold]
                  ++ repeat Scenario.idle 6) Scenario.specWorld = Some w3
       ∧ count (is_ActionCall 0) w3 = 1%nat
       ∧ (entities w3 !! 0%nat ≫= entity_y) = Some 0
       ∧ (entities w3 !! 0%nat ≫= entity_state) = Some resting)
  ∧ (∃ w4,
       animate (Scenario.touch :: repeat Scenario.idle 6) Scenario.specWorld
       = Some w4
       ∧ count (is_ActionCall 0) w4 = 1%nat
       ∧ (entities w4 !! 0%nat ≫= entity_y) = Some 0
       ∧ (entities w4 !! 0%nat ≫= entity_state) = Some resting).
Proof.
  split; [by vm_compute|]. split; [|split; [|split]].
  - eexists. split; [by vm_compute|]. by vm_compute.
  - intros n.
    destruct (animate [Scenario.touch; Scenario.hold] Scenario.specWorld)
      as [w2|] eqn:Hw2;
      [|by vm_compute in Hw2].
    exists w2. split.
    + change (Scenario.touch :: Scenario.hold :: repeat Scenario.hold n)
        with ([Scenario.touch; Scenario.hold] ++ repeat Scenario.hold n).
      pose proof (hold_again w2 Hw2 n) as Hn.
      assert (∀ fs1 fs2 w, animate (fs1 ++ fs2) w
                           = (w' ← animate fs1 w; animate fs2 w')) as Happ.
      { induction fs1 as [|f fs1 IH]; intros fs2 w; simpl; [done|].
        destruct (World_execute f w); simpl; [apply IH|done]. }
      by rewrite Happ, Hw2.
    + vm_compute in Hw2. injection Hw2 as <-. by vm_compute.
  - eexists. split; [by vm_compute|]. by vm_compute.
  - eexists. split; [by vm_compute|]. by vm_compute.
Qed.

(** The "Next" button of [init] is pressed for one frame and released. *)
Lemma action_once_per_full_press_witness :
  ∃ w',
    animate Scenario.pressAndRelease Init.world = Some w'
    ∧ count (is_ActionCall 1) w'
      = (count (is_ActionCall 1) Init.world
         + runs (Some fully_pressed)
                (seen 1 Scenario.pressAndRelease Init.world))%nat.
Proof.
  apply (proj2 (action_once_per_full_press 1 Scenario.pressAndRelease Init.world
                  (Init.newButton obAction 0.05 0.4 0.02)
                  wired_world eq_refl)).
  discriminate.
Defined.

(** The "Next" button with its release sound bound, pushed down, then let
    go for three frames. *)
Lemma release_sound_once_per_recovery_witness :
  let w := mkWorld [Scenario.pushedDown_bound] (executeSystems Init.world) true
                   (mkGlobals 0 false []) in
  ∃ w',
    animate (repeat Scenario.idle 3) w = Some w'
    ∧ count (is_ReleaseSoundPlay 0) w'
      = (count (is_ReleaseSoundPlay 0) w
         + runs (Some recovering) (seen 0 (repeat Scenario.idle 3) w))%nat.
Proof.
  intros w.
  refine (proj2 (release_sound_once_per_recovery 0 (repeat Scenario.idle 3) w
                   (set_releaseSound (Some buttonReleaseSound) Scenario.nextButton)
                   _ eq_refl _) _).
  - split; [reflexivity|]. repeat constructor.
  - by eexists.
  - discriminate.
Defined.

End Scenarios.

(** ** Scene navigation *)

(** C10: with the index within the scene list, [nextScene] and [prevScene]
    leave it within the list, one step forward or backward modulo the six
    scenes, and each undoes the other. *)
Theorem scene_index_round_trip (g : Globals) :
  (0 ≤ currentSceneIndex g < Z.of_nat (length scenes))%Z →
  length scenes = 6%nat
  ∧ (0 ≤ currentSceneIndex (nextScene g) < Z.of_nat (length scenes))%Z
  ∧ (0 ≤ currentSceneIndex (prevScene g) < Z.of_nat (length scenes))%Z
  ∧ currentSceneIndex (nextScene g) = ((currentSceneIndex g + 1) `mod` 6)%Z
  ∧ currentSceneIndex (prevScene g) = ((currentSceneIndex g - 1) `mod` 6)%Z
  ∧ currentSceneIndex (prevScene (nextScene g)) = currentSceneIndex g
  ∧ currentSceneIndex (nextScene (prevScene g)) = currentSceneIndex g.
Proof.
  destruct g as [i v tr]. simpl. intros Hi.
  assert (i = 0 ∨ i = 1 ∨ i = 2 ∨ i = 3 ∨ i = 4 ∨ i = 5)%Z
    as [->|[->|[->|[->|[->| ->]]]]] by lia;
    vm_compute; repeat split; congruence.
Qed.

Lemma scene_index_round_trip_witness :
  length scenes = 6%nat
  ∧ (0 ≤ currentSceneIndex (nextScene (mkGlobals 5 false []))
     < Z.of_nat (length scenes))%Z
  ∧ (0 ≤ currentSceneIndex (prevScene (mkGlobals 5 false []))
     < Z.of_nat (length scenes))%Z
  ∧ currentSceneIndex (nextScene (mkGlobals 5 false [])) = ((5 + 1) `mod` 6)%Z
  ∧ currentSceneIndex (prevScene (mkGlobals 5 false [])) = ((5 - 1) `mod` 6)%Z
  ∧ currentSceneIndex (prevScene (nextScene (mkGlobals 5 false []))) = 5%Z
  ∧ currentSceneIndex (nextScene (prevScene (mkGlobals 5 false []))) = 5%Z.
Proof.
  apply (scene_index_round_trip (mkGlobals 5 false [])). simpl. lia.
Defined.

(** * Further properties of the code *)

(** ** The frame acts on each entity by itself *)

Lemma query_result {A} (c : bool) (x : option A) (y z : A) :
  (if c then x = Some y else y = z) → (if c then x else Some z) = Some y.
Proof. destruct c; intros; by subst. Qed.

(** The entity the button callback leaves does not depend on the globals nor
    on the index of the entity. *)
Lemma button_entity_alone (ps rs : option Audio) (k k' : nat) (e : Entity)
      (g g' : Globals) :
  fst <$> ButtonSystem.on_entity ps rs k e g
  = fst <$> ButtonSystem.on_entity ps rs k' e g'.
Proof.
  unfold ButtonSystem.on_entity.
  destruct (cButton e) as [b|]; [|done].
  by destruct (cObject3D e) as [m|].
Qed.

(** With the systems of [init], a frame that succeeds keeps the number of
    entities and the systems, sets [soundAdded] as soon as a session exists,
    and leaves at every index the entity that the four callbacks, run in
    order on the entity at that index alone, produce. *)
Lemma frame_lookup (f : Frame) (w w' : World) :
  executeSystems w = executeSystems Init.world →
  World_execute f w = Some w' →
  length (entities w') = length (entities w)
  ∧ executeSystems w' = executeSystems w
  ∧ soundAdded w' = soundAdded w || session f
  ∧ ∀ k, entities w' !! k
         = entities w !! k
           ≫= entity_frame f (session f && negb (soundAdded w))
                (reached k (entities w)) k.
Proof.
  intros Hsys Hw'. rewrite World_execute_wired in Hw' by done.
  destruct (InstructionSystem.execute f w) as [w1|] eqn:H1;
    simpl in Hw'; [|done].
  destruct (CalibrationSystem.execute f w1) as [w2|] eqn:H2;
    simpl in Hw'; [|done].
  destruct (ButtonSystem.execute f w2) as [w3|] eqn:H3;
    simpl in Hw'; [|done].
  rename Hw' into H4.
  pose proof (instruction_keeps_marks f w w1 H1) as Hmarks.
  rewrite calibration_execute in H2.
  apply forEach_pure in H1 as (_ & Hs1 & Ha1 & Hl1 & Hk1).
  apply forEach_pure in H2 as (_ & Hs2 & Ha2 & Hl2 & Hk2).
  apply forEach_lookup in H3 as (Hs3 & Ha3 & Hl3 & Hk3).
  apply forEach_pure in H4 as (_ & Hs4 & Ha4 & Hl4 & Hk4).
  simpl in *.
  split; [congruence|]. split; [congruence|]. split.
  { rewrite Ha4, Ha3, Ha2, Ha1.
    destruct (session f), (soundAdded w); done. }
  intros k. destruct (entities w !! k) as [e|] eqn:He; simpl.
  - destruct (Hk1 k e He) as (e1 & He1 & Hq1).
    destruct (Hk2 k e1 He1) as (e2 & He2 & Hq2).
    destruct (Hk3 k e2 He2) as (e3 & He3 & Hq3).
    destruct (Hk4 k e3 He3) as (e4 & He4 & Hq4).
    rewrite He4. symmetry. unfold entity_frame.
    rewrite (query_result _ _ _ _ Hq1). simpl.
    assert ((if cNeedCalibration e1 && reached k (entities w)
             then CalibrationSystem.on_entity f e1 else Some e1)
            = Some e2) as ->.
    { unfold calibrate_reached, reached in *.
      rewrite (marked_before_same k _ _ Hmarks) in Hq2.
      destruct (cNeedCalibration e1); [|by subst].
      simpl. by destruct (Nat.even _); simplify_eq. }
    simpl. rewrite Ha2, Ha1 in Hq3.
    assert ((if has_Button e2
             then fst <$> ButtonSystem.on_entity
                            (if session f && negb (soundAdded w)
                             then Some buttonPressSound else None)
                            (if session f && negb (soundAdded w)
                             then Some buttonReleaseSound else None)
                            k e2 (mkGlobals 0 false [])
             else Some e2) = Some e3) as ->.
    { destruct (has_Button e2); [|by subst].
      destruct Hq3 as (gi & gi' & Hcb).
      rewrite (button_entity_alone _ _ k k e2 _ gi), Hcb. done. }
    simpl. by apply query_result.
  - apply lookup_ge_None in He. apply lookup_ge_None. lia.
Qed.

(** X1: with the systems of [init], what a frame leaves at an index depends
    on the entity at that index, on what the frame reads, on [soundAdded]
    and on whether calibration reaches the index, and on nothing else: two
    worlds that agree on these have the same entity at that index after the
    frame, whatever their other entities and their globals are. *)
Theorem frame_entity_local (f : Frame) (w1 w2 w1' w2' : World) (k : nat) :
  executeSystems w1 = executeSystems Init.world →
  executeSystems w2 = executeSystems Init.world →
  World_execute f w1 = Some w1' →
  World_execute f w2 = Some w2' →
  entities w1 !! k = entities w2 !! k →
  soundAdded w1 = soundAdded w2 →
  reached k (entities w1) = reached k (entities w2) →
  entities w1' !! k = entities w2' !! k.
Proof.
  intros Hsys1 Hsys2 Hrun1 Hrun2 He Hs Hr.
  destruct (frame_lookup f w1 w1' Hsys1 Hrun1) as (_ & _ & _ & Hk1).
  destruct (frame_lookup f w2 w2' Hsys2 Hrun2) as (_ & _ & _ & Hk2).
  by rewrite Hk1, Hk2, He, Hs, Hr.
Qed.

Lemma frame_entity_local_witness :
  ∃ w1' w2',
    World_execute Cases.touchNext Init.world = Some w1'
    ∧ World_execute Cases.touchNext Cases.threeConsoles = Some w2'
    ∧ entities w1' !! 1%nat = entities w2' !! 1%nat.
Proof.
  destruct (World_execute Cases.touchNext Init.world)
    as [w1'|] eqn:Hw1; [|by vm_compute in Hw1].
  destruct (World_execute Cases.touchNext Cases.threeConsoles)
    as [w2'|] eqn:Hw2; [|by vm_compute in Hw2].
  exists w1', w2'. split; [reflexivity|]. split; [reflexivity|].
  apply (frame_entity_local Cases.touchNext
           Init.world Cases.threeConsoles w1' w2' 1 eq_refl eq_refl Hw1 Hw2);
    reflexivity.
Defined.

(** ** When a frame throws *)

(** On a frame with a session, the callbacks succeed on an entity that
    calibration does not pass over only if it is well formed. *)
Lemma entity_frame_well_formed (f : Frame) (c r : bool) (k : nat)
      (e : Entity) :
  session f = true →
  is_Some (entity_frame f c r k e) →
  (cNeedCalibration e = true → r = true) →
  well_formed e = true.
Proof.
  intros Hs. unfold entity_frame, well_formed, has_Button,
    InstructionSystem.on_entity, CalibrationSystem.on_entity,
    ButtonSystem.on_entity, FingerInputSystem.on_entity.
  rewrite Hs.
  destruct e as [o b p t off n].
  destruct o, b, p, t, off, n, r; simpl; try done;
    try (by intros [? ?]); intros _ Hr; by specialize (Hr eq_refl).
Qed.

(** X2: with the systems of [init], a world all of whose entities are well
    formed never throws, whatever the frame reads; and in a world that gets
    through one frame with a session, every entity is well formed, apart
    from the marked entities that calibration passed over in that frame. So
    [well_formed] is what the frames need of the entities they visit. *)
Theorem frame_needs_well_formed (w : World) :
  executeSystems w = executeSystems Init.world →
  (all_well_formed w → ∀ f, is_Some (World_execute f w))
  ∧ (∀ f, session f = true → is_Some (World_execute f w) →
          ∀ k e, entities w !! k = Some e →
                 (cNeedCalibration e = true →
                  reached k (entities w) = true) →
                 well_formed e = true).
Proof.
  intros Hsys. split.
  - intros Hwf f. destruct (frame_step f w (conj Hsys Hwf)) as (w' & -> & _).
    done.
  - intros f Hs [w' Hw'] k e He Hreach.
    destruct (frame_lookup f w w' Hsys Hw') as (Hlen & _ & _ & Hk).
    specialize (Hk k). rewrite He in Hk. simpl in Hk.
    apply (entity_frame_well_formed f (session f && negb (soundAdded w))
             (reached k (entities w)) k e Hs); [|done].
    rewrite <- Hk.
    apply lookup_lt_is_Some. rewrite Hlen. by eapply lookup_lt_Some.
Qed.

(** A pressable entity without a button makes the frame throw. *)
Example pressable_without_button_throws :
  well_formed <$> entities Cases.brokenWorld = [false]
  ∧ World_execute Scenario.idle Cases.brokenWorld = None.
Proof. by vm_compute. Qed.

Lemma frame_needs_well_formed_witness :
  (all_well_formed Init.world → ∀ f, is_Some (World_execute f Init.world))
  ∧ (∀ f, session f = true → is_Some (World_execute f Init.world) →
          ∀ k e, entities Init.world !! k = Some e →
                 (cNeedCalibration e = true →
                  reached k (entities Init.world) = true) →
                 well_formed e = true).
Proof. apply (frame_needs_well_formed Init.world). reflexivity. Defined.

(** ** What the frames keep *)

(** What the callbacks of one frame keep of an entity, and what they write. *)
Lemma entity_frame_keeps (f : Frame) (c r : bool) (k : nat)
      (e e' : Entity) :
  entity_frame f c r k e = Some e' →
  components e' = components e
  ∧ cOffsetFromCamera e' = cOffsetFromCamera e
  ∧ cNeedCalibration e' = cNeedCalibration e && negb (session f && r)
  ∧ match cButton e with
    | None => cButton e' = None
    | Some b =>
        ∃ b',
          cButton e' = Some b'
          ∧ configuration b' = configuration b
          ∧ prevState b' = currState b
          ∧ match restingY b with
            | Some r => restingY b' = Some r
            | None =>
                is_Some (restingY b')
                ∧ (cNeedCalibration e && session f && r = false →
                   restingY b' = entity_y e)
            end
    end.
Proof.
  unfold entity_frame, components, has_Button, entity_y,
    InstructionSystem.on_entity, CalibrationSystem.on_entity,
    ButtonSystem.on_entity, FingerInputSystem.on_entity.
  destruct e as [o b p t off n].
  destruct o as [o|], b as [b|], p, t, off as [off|], n, (session f), r;
    cbn -[FingerInputSystem.press]; try done;
    intros He';
    repeat match goal with
           | H : context [FingerInputSystem.press ?dt ?hs ?b0 ?o0] |- _ =>
               let s := fresh "s" in
               let Hs := fresh "Hs" in
               destruct (press_button dt hs b0 o0) as [s Hs];
               destruct (FingerInputSystem.press dt hs b0 o0);
               simpl in Hs; subst
           end;
    simplify_eq; cbn;
    (split; [done|]); (split; [done|]); (split; [done|]);
    try done;
    (eexists; split; [done|]);
    (split; [by destruct (restingY b), c|]);
    (split; [by destruct (restingY b), c|]);
    destruct (restingY b) eqn:Hr, c; cbn; try done; try (split; try done; by eexists).
Qed.

(** The animation loop never throws on a wired world. *)
Lemma animate_total (fs : list Frame) (w : World) :
  wired w → ∃ w', animate fs w = Some w' ∧ wired w'.
Proof.
  revert w. induction fs as [|f fs IH]; intros w Hw; simpl; [by exists w|].
  destruct (frame_step f w Hw) as (w1 & -> & Hw1 & _). simpl. by apply IH.
Qed.

Lemma animate_app (fs1 fs2 : list Frame) (w : World) :
  animate (fs1 ++ fs2) w = (w' ← animate fs1 w; animate fs2 w').
Proof.
  revert w. induction fs1 as [|f fs1 IH]; intros w; simpl; [done|].
  destruct (World_execute f w); simpl; [apply IH|done].
Qed.

(** A property of an entity that the callbacks keep in every frame of a
    certain kind holds of the entity at the same index after any number of
    frames of that kind. *)
Lemma animate_entity_invariant_on (Q : Frame → Prop) (P : Entity → Prop)
      (fs : list Frame) (w w' : World) (k : nat) (e : Entity) :
  (∀ f c r e0 e1, Q f → P e0 → entity_frame f c r k e0 = Some e1 → P e1) →
  Forall Q fs →
  executeSystems w = executeSystems Init.world →
  animate fs w = Some w' →
  entities w !! k = Some e →
  P e →
  ∃ e', entities w' !! k = Some e' ∧ P e'.
Proof.
  intros Hkeep HQ. revert w e. induction HQ as [|f fs Hf _ IH];
    intros w e Hsys Hrun He HP; simpl in Hrun.
  - simplify_eq. by exists e.
  - destruct (World_execute f w) as [w1|] eqn:Hw1; simpl in Hrun; [|done].
    destruct (frame_lookup f w w1 Hsys Hw1) as (Hlen & Hsys1 & _ & Hk).
    specialize (Hk k). rewrite He in Hk. simpl in Hk.
    destruct (entities w1 !! k) as [e1|] eqn:He1.
    + apply (IH w1 e1); [congruence|done|done|].
      eapply Hkeep; [exact Hf|exact HP|]. by rewrite <- Hk.
    + apply lookup_ge_None in He1. apply lookup_lt_Some in He. lia.
Qed.

Lemma animate_entity_invariant (P : Entity → Prop) (fs : list Frame)
      (w w' : World) (k : nat) (e : Entity) :
  (∀ f c r e0 e1, P e0 → entity_frame f c r k e0 = Some e1 → P e1) →
  executeSystems w = executeSystems Init.world →
  animate fs w = Some w' →
  entities w !! k = Some e →
  P e →
  ∃ e', entities w' !! k = Some e' ∧ P e'.
Proof.
  intros Hkeep. apply (animate_entity_invariant_on (λ _, True)).
  - intros f c r e0 e1 _. apply Hkeep.
  - by apply Forall_true.
Qed.

(** X3: in a wired world, for a button at index k, over any sequence of
    frames: a resting height that is captured is never changed; one that is
    not captured yet is captured by the first frame, from the height of the
    mesh when the frame starts if the entity is not calibrated in that
    frame, and is not changed after. *)
Theorem restingY_captured_once (fs : list Frame) (w : World) (k : nat)
        (e : Entity) (b : Button) :
  wired w →
  entities w !! k = Some e →
  cButton e = Some b →
  ∃ w' e' b',
    animate fs w = Some w'
    ∧ entities w' !! k = Some e'
    ∧ cButton e' = Some b'
    ∧ (∀ r, restingY b = Some r → restingY b' = Some r)
    ∧ (∀ f fs', fs = f :: fs' →
                is_Some (restingY b')
                ∧ (restingY b = None →
                   cNeedCalibration e && session f = false →
                   restingY b' = entity_y e)).
Proof.
  intros Hw He Hb.
  destruct (animate_total fs w Hw) as (w' & Hrun & _).
  destruct Hw as [Hsys Hwf].
  assert (Hsome : ∀ fs w w' e b r,
             executeSystems w = executeSystems Init.world →
             animate fs w = Some w' →
             entities w !! k = Some e →
             cButton e = Some b → restingY b = Some r →
             ∃ e' b', entities w' !! k = Some e' ∧ cButton e' = Some b'
                      ∧ restingY b' = Some r).
  { intros fs0 w0 w0' e0 b0 r Hsys0 Hrun0 He0 Hb0 Hr0.
    destruct (animate_entity_invariant
                (λ e, ∃ b, cButton e = Some b ∧ restingY b = Some r)
                fs0 w0 w0' k e0) as (e' & He' & b' & Hb' & Hr');
      [|done|done|done|by exists b0|by exists e', b'].
    intros f c r0 ea eb (ba & Hba & Hra) Hstep.
    apply entity_frame_keeps in Hstep as (_ & _ & _ & Hbtn).
    rewrite Hba in Hbtn. destruct Hbtn as (bb & Hbb & _ & _ & Hrb).
    rewrite Hra in Hrb. by exists bb. }
  destruct fs as [|f fs'].
  - simpl in Hrun. simplify_eq. exists w', e, b.
    repeat split; try done.
  - simpl in Hrun.
    destruct (World_execute f w) as [w1|] eqn:Hw1; simpl in Hrun; [|done].
    destruct (frame_lookup f w w1 Hsys Hw1) as (Hlen & Hsys1 & _ & Hk).
    specialize (Hk k). rewrite He in Hk. simpl in Hk. symmetry in Hk.
    destruct (entities w1 !! k) as [e1|] eqn:He1;
      [|apply lookup_ge_None in He1; apply lookup_lt_Some in He; lia].
    pose proof (entity_frame_keeps _ _ _ _ _ _ Hk) as (_ & _ & _ & Hbtn).
    rewrite Hb in Hbtn. destruct Hbtn as (b1 & Hb1 & _ & _ & Hr1).
    assert (∃ r1, restingY b1 = Some r1) as [r1 Hr1'].
    { destruct (restingY b) as [r|]; [by exists r|].
      destruct Hr1 as [[r1 ?] _]. by exists r1. }
    destruct (Hsome fs' w1 w' e1 b1 r1 (eq_trans Hsys1 Hsys) Hrun He1 Hb1 Hr1')
      as (e' & b' & He' & Hb' & Hr').
    exists w', e', b'. simpl. rewrite Hw1. simpl.
    split; [done|]. split; [done|]. split; [done|]. split.
    + intros r Hr. rewrite Hr in Hr1. congruence.
    + intros f0 fs0 [= <- <-]. split; [by rewrite Hr'|].
      intros Hnone Hcal. rewrite Hnone in Hr1. destruct Hr1 as [_ Hy].
      rewrite Hr', <- Hr1'. apply Hy. by rewrite Hcal.
Qed.

Lemma animate_shape (fs : list Frame) (w w' : World) :
  executeSystems w = executeSystems Init.world →
  animate fs w = Some w' →
  executeSystems w' = executeSystems Init.world
  ∧ length (entities w') = length (entities w).
Proof.
  revert w. induction fs as [|f fs IH]; intros w Hsys Hrun; simpl in Hrun.
  - by simplify_eq.
  - destruct (World_execute f w) as [w1|] eqn:Hw1; simpl in Hrun; [|done].
    destruct (frame_lookup f w w1 Hsys Hw1) as (Hlen & Hsys1 & _).
    destruct (IH w1 (eq_trans Hsys1 Hsys) Hrun) as [? ?].
    split; [done|congruence].
Qed.

(** X4: in a wired world, over any sequence of frames, no entity is created
    or destroyed, and the entity at index k keeps the components it carries
    (only the calibration marker can go, and it never comes back), its
    offset from the camera, and the configuration of its button: surface
    height, recovery speed, full-press distance and action. *)
Theorem setup_kept (fs : list Frame) (w : World) (k : nat) (e : Entity) :
  wired w →
  entities w !! k = Some e →
  ∃ w' e',
    animate fs w = Some w'
    ∧ length (entities w') = length (entities w)
    ∧ entities w' !! k = Some e'
    ∧ components e' = components e
    ∧ cOffsetFromCamera e' = cOffsetFromCamera e
    ∧ configuration <$> cButton e' = configuration <$> cButton e
    ∧ (cNeedCalibration e = false → cNeedCalibration e' = false).
Proof.
  intros Hw He.
  destruct (animate_total fs w Hw) as (w' & Hrun & _).
  destruct Hw as [Hsys _].
  destruct (animate_shape fs w w' Hsys Hrun) as [_ Hlen].
  destruct (animate_entity_invariant
              (λ e0, components e0 = components e
                     ∧ cOffsetFromCamera e0 = cOffsetFromCamera e
                     ∧ configuration <$> cButton e0 = configuration <$> cButton e
                     ∧ (cNeedCalibration e = false →
                        cNeedCalibration e0 = false))
              fs w w' k e) as (e' & He' & HP); [|done|done|done|done|].
  - intros f c r e0 e1 (Hc & Ho & Hb & Hn) Hstep.
    apply entity_frame_keeps in Hstep as (Hc1 & Ho1 & Hn1 & Hb1).
    split; [congruence|]. split; [congruence|]. split.
    + rewrite <- Hb. destruct (cButton e0) as [b0|].
      * destruct Hb1 as (b1 & -> & Hcfg & _). simpl. by rewrite Hcfg.
      * by rewrite Hb1.
    + intros Hoff. rewrite Hn1, (Hn Hoff). done.
  - exists w', e'. by destruct HP as (? & ? & ? & ?).
Qed.

Lemma setup_kept_witness :
  ∃ w' e',
    animate Scenario.pressAndRelease Init.world = Some w'
    ∧ length (entities w') = length (entities Init.world)
    ∧ entities w' !! 1%nat = Some e'
    ∧ components e' = components Init.obEntity
    ∧ cOffsetFromCamera e' = cOffsetFromCamera Init.obEntity
    ∧ configuration <$> cButton e' = configuration <$> cButton Init.obEntity
    ∧ (cNeedCalibration Init.obEntity = false → cNeedCalibration e' = false).
Proof.
  apply (setup_kept Scenario.pressAndRelease Init.world 1 Init.obEntity).
  - split; [reflexivity|]. repeat constructor.
  - reflexivity.
Defined.

Lemma restingY_captured_once_witness :
  ∃ w' e' b',
    animate Scenario.pressAndRelease Init.world = Some w'
    ∧ entities w' !! 1%nat = Some e'
    ∧ cButton e' = Some b'
    ∧ restingY b' = Some 0.04%float.
Proof.
  destruct (restingY_captured_once Scenario.pressAndRelease Init.world 1
              Init.obEntity (Init.newButton obAction 0.05 0.4 0.02))
    as (w' & e' & b' & Hrun & He' & Hb' & _ & Hfirst).
  - split; [reflexivity|]. repeat constructor.
  - reflexivity.
  - reflexivity.
  - exists w', e', b'. split; [done|]. split; [done|]. split; [done|].
    destruct (Hfirst _ _ eq_refl) as [_ Hy]. by apply Hy.
Defined.

(** ** The steps of FingerInputSystem *)

Section FingerSteps.

Local Open Scope float_scope.

Lemma set_y_same (o : Mesh) : set_y (vy (position o)) o = o.
Proof. by destruct o as [[] ?]. Qed.

Lemma set_y_set_y (y1 y2 : float) (o : Mesh) :
  set_y y2 (set_y y1 o) = set_y y2 o.
Proof. done. Qed.

Lemma pressingDistances_nil (b : Button) (hs : list HandReading) :
  FingerInputSystem.pressingDistances b hs = [] ↔ no_contact hs.
Proof.
  split; [|apply pressingDistances_no_contact].
  rewrite pressingDistances_omap. unfold no_contact.
  induction hs as [|[ly|] hs IH]; simpl; [by constructor|done|].
  intros Hnil. constructor; [done|by apply IH].
Qed.

(** X5: on an entity with a button and a mesh, a step of [FingerInputSystem]
    succeeds and writes nothing but [position.y] and [currState]; and the
    state it leaves tells where the button is and whether it is touched:
    [resting] only untouched and exactly at [restingY], [recovering] only
    untouched, having been below [restingY] and moved up by
    [recoverySpeed * delta], [fully_pressed] only touched and exactly at
    [restingY - fullPressDistance], [pressed] only touched and not at or
    below that height. *)
Theorem finger_step_states (dt : float) (hs : list HandReading)
        (e : Entity) (b : Button) (o : Mesh) :
  cButton e = Some b →
  cObject3D e = Some o →
  ∃ s y',
    FingerInputSystem.on_entity dt hs e
    = Some (set_Button (set_currState s b) (set_Object3D (set_y y' o) e))
    ∧ match s with
      | resting =>
          no_contact hs
          ∧ (vy (position o) <? JS.ToNumber (restingY b)) = false
          ∧ y' = JS.ToNumber (restingY b)
      | recovering =>
          no_contact hs
          ∧ (vy (position o) <? JS.ToNumber (restingY b)) = true
          ∧ y' = vy (position o) + recoverySpeed b * dt
      | fully_pressed => ¬ no_contact hs ∧ y' = fullPressY b
      | pressed => ¬ no_contact hs ∧ (y' <=? fullPressY b) = false
      end.
Proof.
  intros Hb Ho. unfold FingerInputSystem.on_entity. rewrite Hb, Ho. simpl.
  destruct (decide (FingerInputSystem.pressingDistances b hs = []))
    as [Hnil|Hne].
  - pose proof (proj1 (pressingDistances_nil b hs) Hnil) as Hno.
    rewrite press_no_contact by done.
    destruct (vy (position o) <? JS.ToNumber (restingY b)) eqn:Hlt.
    + by exists recovering, (vy (position o) + recoverySpeed b * dt).
    + by exists resting, (JS.ToNumber (restingY b)).
  - assert (¬ no_contact hs) as Hcontact.
    { intros Hno. by apply Hne, pressingDistances_nil. }
    rewrite press_contact by done.
    set (d := FingerInputSystem.pressingDistance _).
    destruct (0 <? d).
    + destruct (_ <=? fullPressY b) eqn:Hle.
      * by exists fully_pressed, (fullPressY b).
      * by exists pressed, (vy (position o) - d).
    + destruct (_ <=? fullPressY b) eqn:Hle.
      * by exists fully_pressed, (fullPressY b).
      * exists pressed, (vy (position o)). by rewrite set_y_same.
Qed.

Lemma finger_step_states_witness :
  ∃ s y',
    FingerInputSystem.on_entity 0.016 [Some 0.025; None] Scenario.atRest
    = Some (set_Button (set_currState s Scenario.nextButton)
              (set_Object3D (set_y y' Init.nextButton) Scenario.atRest))
    ∧ match s with
      | resting =>
          no_contact [Some 0.025; None]
          ∧ (0.04 <? JS.ToNumber (restingY Scenario.nextButton)) = false
          ∧ y' = JS.ToNumber (restingY Scenario.nextButton)
      | recovering =>
          no_contact [Some 0.025; None]
          ∧ (0.04 <? JS.ToNumber (restingY Scenario.nextButton)) = true
          ∧ y' = 0.04 + recoverySpeed Scenario.nextButton * 0.016
      | fully_pressed =>
          ¬ no_contact [Some 0.025; None]
          ∧ y' = fullPressY Scenario.nextButton
      | pressed =>
          ¬ no_contact [Some 0.025; None]
          ∧ (y' <=? fullPressY Scenario.nextButton) = false
      end.
Proof.
  apply (finger_step_states 0.016 [Some 0.025; None] Scenario.atRest
           Scenario.nextButton Init.nextButton); reflexivity.
Defined.

(** What [Math.max] makes of a one-element array is positive exactly when
    the element is. *)
Lemma pressingDistance_single_sign (d : float) :
  (0 <? FingerInputSystem.pressingDistance [d]) = (0 <? d).
Proof.
  destruct (0 <? d) eqn:Hd; [by rewrite pressingDistance_single|].
  unfold FingerInputSystem.pressingDistance, JS.Math_max, JS.ToNumber_Array,
    JS.Number_of_String_of, JS.max2; simpl.
  destruct (is_zero d); [by vm_compute|].
  change (is_nan neg_infinity) with false. simpl.
  destruct (is_nan d); [by vm_compute|].
  destruct (neg_infinity <? d); [done|].
  destruct (d <? neg_infinity); [by vm_compute|].
  change (is_zero neg_infinity) with false. simpl. by vm_compute.
Qed.

(** X6: with exactly one hand in contact, at pressing distance [d]: a
    positive [d] pushes the button down by exactly [d], anything else (the
    fingertip at or above the surface, or a distance that is not a number)
    does not move it; the button then stops at the full-press height if it
    has reached it, with state [fully_pressed], and is [pressed] otherwise. *)
Theorem single_contact_press (dt : float) (hs : list HandReading)
        (e : Entity) (b : Button) (o : Mesh) (d : float) :
  cButton e = Some b →
  cObject3D e = Some o →
  FingerInputSystem.pressingDistances b hs = [d] →
  let y1 := if 0 <? d then vy (position o) - d else vy (position o) in
  FingerInputSystem.on_entity dt hs e
  = Some (if y1 <=? fullPressY b
          then set_Button (set_currState fully_pressed b)
                          (set_Object3D (set_y (fullPressY b) o) e)
          else set_Button (set_currState pressed b)
                          (set_Object3D (set_y y1 o) e)).
Proof.
  intros Hb Ho Hd y1. unfold FingerInputSystem.on_entity.
  rewrite Hb, Ho. simpl.
  rewrite press_contact by (by rewrite Hd). rewrite Hd.
  rewrite pressingDistance_single_sign. unfold y1.
  destruct (0 <? d) eqn:Hpos.
  - rewrite pressingDistance_single by done.
    by destruct (_ <=? fullPressY b).
  - destruct (_ <=? fullPressY b); [done|]. by rewrite set_y_same.
Qed.

Lemma single_contact_press_witness :
  FingerInputSystem.on_entity 0.016 [Some 0.04; None] Scenario.atRest
  = Some (if (if 0 <? 0.05 - 0.04 then 0.04 - (0.05 - 0.04) else 0.04)
               <=? fullPressY Scenario.nextButton
          then set_Button (set_currState fully_pressed Scenario.nextButton)
                 (set_Object3D
                    (set_y (fullPressY Scenario.nextButton) Init.nextButton)
                    Scenario.atRest)
          else set_Button (set_currState pressed Scenario.nextButton)
                 (set_Object3D
                    (set_y (if 0 <? 0.05 - 0.04
                            then 0.04 - (0.05 - 0.04) else 0.04)
                           Init.nextButton)
                    Scenario.atRest)).
Proof.
  apply (single_contact_press 0.016 [Some 0.04; None] Scenario.atRest
           Scenario.nextButton Init.nextButton (0.05 - 0.04));
    reflexivity.
Defined.

End FingerSteps.

(** ** Without hands *)

Section Quiet.

Local Open Scope float_scope.

(** A relation on the globals that every callback respects holds between
    the globals before and after the iteration. *)
Lemma forEach_from_rel (R : Globals → Globals → Prop)
      `{!Reflexive R} `{!Transitive R} (q : Entity → bool)
      (cb : nat → Entity → Globals → option (Entity * Globals))
      (k0 : nat) (es : list Entity) (g : Globals)
      (r : list Entity * Globals) :
  (∀ i e g e' g', es !! i = Some e → q e = true →
                  cb (k0 + i)%nat e g = Some (e', g') → R g g') →
  forEach_from q cb k0 es g = Some r →
  R g r.2.
Proof.
  revert k0 g r. induction es as [|e0 es IH]; intros k0 g r Hcb Hr;
    simpl in Hr.
  - by simplify_eq.
  - destruct (if q e0 then cb k0 e0 g else Some (e0, g))
      as [[e0' g0]|] eqn:H0; simpl in Hr; [|done].
    destruct (forEach_from q cb (S k0) es g0) as [rs|] eqn:Hrs;
      simpl in Hr; [|done].
    simplify_eq. simpl. transitivity g0.
    + destruct (q e0) eqn:Hq; [|by simplify_eq].
      apply (Hcb 0%nat e0 g e0' g0); [done|done|].
      by rewrite Nat.add_0_r.
    + apply (IH (S k0) g0 rs); [|done].
      intros i e g1 e' g1' He Hq Hstep.
      apply (Hcb (S i) e g1 e' g1'); [done|done|].
      by rewrite Nat.add_succ_r.
Qed.

(** The button callback does nothing outside of a button it reads
    [resting]. *)
Lemma button_quiet (ps rs : option Audio) (k : nat) (e e' : Entity)
      (g g' : Globals) (b : Button) :
  ButtonSystem.on_entity ps rs k e g = Some (e', g') →
  cButton e = Some b →
  currState b = resting →
  g' = g.
Proof.
  unfold ButtonSystem.on_entity. intros Hcb Hb Hcurr. rewrite Hb in Hcb.
  destruct (cObject3D e) as [m|]; [|done]. simpl in Hcb.
  destruct (restingY b), ps, rs; simpl in Hcb; rewrite Hcurr in Hcb;
    simpl in Hcb; by simplify_eq.
Qed.

(** An entity at rest that no hand touches is at rest after the frame, at
    the resting height it had. *)
Lemma entity_frame_at_rest (f : Frame) (c reach : bool) (k : nat)
      (e e' : Entity) :
  no_contact (hands f k) →
  at_rest e →
  entity_frame f c reach k e = Some e' →
  at_rest e'
  ∧ ∀ b r, cButton e = Some b → restingY b = Some r →
           ∃ b', cButton e' = Some b' ∧ restingY b' = Some r
                 ∧ currState b' = resting ∧ entity_y e' = Some r.
Proof.
  intros Hno. unfold at_rest, entity_frame, has_Button, entity_y,
    InstructionSystem.on_entity, CalibrationSystem.on_entity,
    ButtonSystem.on_entity, FingerInputSystem.on_entity.
  destruct e as [o b p t off n].
  destruct b as [b|]; cbn -[FingerInputSystem.press].
  - intros (Hcurr & -> & Hy).
    destruct o as [o|], p, t; cbn -[FingerInputSystem.press]; try done;
      rewrite ?press_no_contact by done;
      cbn -[FingerInputSystem.press];
      destruct (restingY b) as [r|] eqn:Hr, c;
      cbn -[FingerInputSystem.press] in *;
      rewrite ?Hr; cbn -[FingerInputSystem.press];
      simplify_eq; rewrite ?ltb_irrefl;
      intros He'; simplify_eq; cbn; rewrite ?Hr;
      (split; [done|]); intros b0 r0 Hb0 Hr0; simplify_eq;
      eexists; repeat split; try done; cbn; by rewrite ?Hr.
  - intros _ He'. split; [|done].
    destruct o as [o|], p, t, n, off, (session f), reach;
      cbn in He'; by simplify_eq.
Qed.

(** [ButtonSystem] leaves the globals alone when it reads every button
    [resting]. *)
Lemma button_system_quiet (f : Frame) (w w' : World) :
  ButtonSystem.execute f w = Some w' →
  (∀ k b, button_at k w = Some b → currState b = resting) →
  globals w' = globals w.
Proof.
  unfold ButtonSystem.execute, forEach. simpl. intros Hw' Hrest.
  match type of Hw' with
  | context [forEach_from ?q ?cb 0 ?es ?g] =>
      destruct (forEach_from q cb 0 es g) as [r|] eqn:Hr; [|done];
      apply (forEach_from_rel eq) in Hr
  end.
  - simpl in Hw'. by simplify_eq.
  - intros i e g e' g' He Hq Hcb. symmetry. unfold has_Button in Hq.
    apply bool_decide_eq_true in Hq as [b Hb].
    apply (button_quiet _ _ _ _ _ _ _ b Hcb Hb).
    apply (Hrest i). by rewrite (button_at_lookup i w e He).
Qed.

Lemma at_rest_resting (w : World) :
  Forall at_rest (entities w) →
  ∀ k b, button_at k w = Some b → currState b = resting.
Proof.
  intros Hrest k b Hb. apply button_at_Some in Hb as (e & He & Hb).
  pose proof (Forall_lookup_1 _ _ _ _ Hrest He) as Hat.
  unfold at_rest in Hat. rewrite Hb in Hat. by destruct Hat.
Qed.

Lemma frame_quiet (f : Frame) (w : World) :
  wired w →
  Forall at_rest (entities w) →
  hands_off f →
  ∃ w',
    World_execute f w = Some w'
    ∧ wired w'
    ∧ globals w' = globals w
    ∧ Forall at_rest (entities w')
    ∧ ∀ k e b r, entities w !! k = Some e → cButton e = Some b →
                 restingY b = Some r →
                 ∃ e' b', entities w' !! k = Some e' ∧ cButton e' = Some b'
                          ∧ restingY b' = Some r ∧ currState b' = resting
                          ∧ entity_y e' = Some r.
Proof.
  intros Hw Hrest Hoff.
  destruct (frame_step f w Hw) as (w' & Hw' & Hwired' & _).
  exists w'. split; [done|]. split; [done|].
  destruct Hw as [Hsys Hwf].
  pose proof (frame_lookup f w w' Hsys Hw') as (Hlen & _ & _ & Hk).
  split; [|split].
  - rewrite World_execute_wired in Hw' by done.
    destruct (instruction_step f w Hwf)
      as (w1 & H1 & _ & _ & Hg1 & Hwf1 & Hb1).
    rewrite H1 in Hw'. simpl in Hw'.
    destruct (calibration_step f w1 Hwf1)
      as (w2 & H2 & _ & _ & Hg2 & Hwf2 & Hb2).
    rewrite H2 in Hw'. simpl in Hw'.
    destruct (ButtonSystem.execute f w2) as [w3|] eqn:H3;
      simpl in Hw'; [|done].
    apply forEach_pure in Hw' as (Hg4 & _).
    rewrite Hg4, (button_system_quiet f w2 w3 H3), Hg2, Hg1; [done|].
    intros k b Hb. rewrite Hb2, Hb1 in Hb. by eapply at_rest_resting.
  - apply Forall_lookup. intros k e' He'.
    entity_before w k Hlen as e He.
    specialize (Hk k). rewrite He, He' in Hk. simpl in Hk. symmetry in Hk.
    pose proof (Forall_lookup_1 _ _ _ _ Hrest He) as Hat.
    by destruct (entity_frame_at_rest f _ _ k e e' (Hoff k) Hat Hk).
  - intros k e b r He Hb Hr.
    specialize (Hk k). rewrite He in Hk. simpl in Hk. symmetry in Hk.
    destruct (entities w' !! k) as [e'|] eqn:He';
      [|apply lookup_ge_None in He'; apply lookup_lt_Some in He; lia].
    pose proof (Forall_lookup_1 _ _ _ _ Hrest He) as Hat.
    destruct (entity_frame_at_rest f _ _ k e e' (Hoff k) Hat Hk) as [_ Hy].
    destruct (Hy b r Hb Hr) as (b' & ? & ? & ? & ?). by exists e', b'.
Qed.

(** X7: in a wired world where every button is at rest, frames in which no
    hand touches anything leave the globals as they are (nothing is played,
    no action is called, no texture is loaded, the scene index stays), and
    leave every button at rest; a button whose resting height is captured
    stays exactly at it, whatever the frames' [delta]. *)
Theorem quiet_without_hands (fs : list Frame) (w : World) :
  wired w →
  Forall at_rest (entities w) →
  Forall hands_off fs →
  ∃ w',
    animate fs w = Some w'
    ∧ globals w' = globals w
    ∧ Forall at_rest (entities w')
    ∧ ∀ k e b r, entities w !! k = Some e → cButton e = Some b →
                 restingY b = Some r →
                 ∃ e', entities w' !! k = Some e'
                       ∧ entity_y e' = Some r
                       ∧ entity_state e' = Some resting.
Proof.
  revert w. induction fs as [|f fs IH]; intros w Hw Hrest Hoff; simpl.
  - exists w. repeat split; try done.
    intros k e b r He Hb Hr. exists e. split; [done|].
    pose proof (Forall_lookup_1 _ _ _ _ Hrest He) as Hat.
    unfold at_rest in Hat. rewrite Hb, Hr in Hat.
    destruct Hat as (Hc & _ & Hy). split; [done|].
    unfold entity_state. by rewrite Hb, <- Hc.
  - apply Forall_cons in Hoff as [Hf Hfs].
    destruct (frame_quiet f w Hw Hrest Hf)
      as (w1 & -> & Hw1 & Hg1 & Hrest1 & Hy1). simpl.
    destruct (IH w1 Hw1 Hrest1 Hfs) as (w' & Hrun & Hg & Hrest' & Hy).
    exists w'. split; [done|]. split; [congruence|]. split; [done|].
    intros k e b r He Hb Hr.
    destruct (Hy1 k e b r He Hb Hr) as (e1 & b1 & He1 & Hb1 & Hr1 & _).
    by apply (Hy k e1 b1 r).
Qed.

Lemma quiet_without_hands_witness :
  ∃ w',
    animate [Scenario.untracked; Scenario.idle; Scenario.idle] Init.world
    = Some w'
    ∧ globals w' = globals Init.world
    ∧ Forall at_rest (entities w').
Proof.
  destruct (quiet_without_hands
              [Scenario.untracked; Scenario.idle; Scenario.idle] Init.world)
    as (w' & Hrun & Hg & Hrest & _).
  - split; [reflexivity|]. repeat constructor.
  - repeat constructor.
  - repeat constructor.
  - exists w'. split; [exact Hrun|]. split; [exact Hg|exact Hrest].
Defined.

End Quiet.

(** ** Scene navigation, repeated *)

Section Navigation.

Local Open Scope Z_scope.

Lemma nextScene_step (g : Globals) :
  in_range g →
  in_range (nextScene g)
  ∧ currentSceneIndex (nextScene g) = (currentSceneIndex g + 1) `mod` 6
  ∧ exitText_visible (nextScene g) = exitText_visible g
  ∧ ∃ url, trace (nextScene g) = trace g ++ [TextureLoad (Some url)].
Proof.
  unfold in_range. destruct g as [i v tr]. simpl. intros Hi.
  assert (i = 0 ∨ i = 1 ∨ i = 2 ∨ i = 3 ∨ i = 4 ∨ i = 5)
    as [->|[->|[->|[->|[->| ->]]]]] by lia;
    vm_compute; repeat split; try congruence; by eexists.
Qed.

Lemma prevScene_step (g : Globals) :
  in_range g →
  in_range (prevScene g)
  ∧ currentSceneIndex (prevScene g) = (currentSceneIndex g - 1) `mod` 6
  ∧ exitText_visible (prevScene g) = exitText_visible g
  ∧ ∃ url, trace (prevScene g) = trace g ++ [TextureLoad (Some url)].
Proof.
  unfold in_range. destruct g as [i v tr]. simpl. intros Hi.
  assert (i = 0 ∨ i = 1 ∨ i = 2 ∨ i = 3 ∨ i = 4 ∨ i = 5)
    as [->|[->|[->|[->|[->| ->]]]]] by lia;
    vm_compute; repeat split; try congruence; by eexists.
Qed.



End Navigation.

(** ** What the frames do to the globals *)

Section Globals.

Lemma well_loaded_refl (g : Globals) : well_loaded g g.
Proof. intros Hg. split; [done|]. exists []. by rewrite app_nil_r. Qed.

Lemma well_loaded_trans (g1 g2 g3 : Globals) :
  well_loaded g1 g2 → well_loaded g2 g3 → well_loaded g1 g3.
Proof.
  intros H12 H23 Hg1. destruct (H12 Hg1) as (Hg2 & evs1 & Ht1 & Hd1).
  destruct (H23 Hg2) as (Hg3 & evs2 & Ht2 & Hd2).
  split; [done|]. exists (evs1 ++ evs2).
  split; [by rewrite Ht2, Ht1, app_assoc|by apply Forall_app].
Qed.

Lemma well_loaded_emit (ev : Event) (g : Globals) :
  defined_load ev → well_loaded g (emit ev g).
Proof.
  intros Hev Hg. split; [done|]. exists [ev]. split; [done|].
  by constructor.
Qed.

Lemma well_loaded_call (a : Action) (g : Globals) : well_loaded g (call a g).
Proof.
  intros Hg. destruct a; simpl.
  - by apply well_loaded_refl.
  - destruct (nextScene_step g Hg) as (Hr & _ & _ & url & Ht).
    split; [done|]. exists [TextureLoad (Some url)].
    split; [done|]. by repeat constructor.
  - destruct (prevScene_step g Hg) as (Hr & _ & _ & url & Ht).
    split; [done|]. exists [TextureLoad (Some url)].
    split; [done|]. by repeat constructor.
  - split; [unfold in_range; simpl; lia|].
    exists [TextureLoad (Some "./images/centrocaldas.jpg"%string)].
    split; [done|]. by repeat constructor.
  - split; [done|]. exists [ExitTimeout]. split; [done|].
    by repeat constructor.
Qed.

Lemma button_well_loaded (ps rs : option Audio) (k : nat) (e e' : Entity)
      (g g' : Globals) :
  ButtonSystem.on_entity ps rs k e g = Some (e', g') → well_loaded g g'.
Proof.
  unfold ButtonSystem.on_entity.
  destruct (cButton e) as [b|]; [|done].
  destruct (cObject3D e) as [m|]; [|done]. simpl.
  intros Hcb. simplify_eq.
  repeat match goal with
         | |- well_loaded _ (if ?c then _ else _) => destruct c
         | |- well_loaded _ (match ?s with Some _ => _ | None => _ end) =>
             destruct s
         | |- well_loaded ?g ?g => apply well_loaded_refl
         | |- well_loaded _ (emit _ _) =>
             eapply well_loaded_trans; [|by apply well_loaded_emit]
         | |- well_loaded _ (call _ _) =>
             eapply well_loaded_trans; [|apply well_loaded_call]
         end.
Qed.

Lemma frame_well_loaded (f : Frame) (w : World) :
  wired w →
  ∃ w', World_execute f w = Some w' ∧ wired w'
        ∧ well_loaded (globals w) (globals w').
Proof.
  intros Hw. destruct (frame_step f w Hw) as (w' & Hw' & Hwired' & _).
  exists w'. split; [done|]. split; [done|].
  destruct Hw as [Hsys Hwf].
  rewrite World_execute_wired in Hw' by done.
  destruct (InstructionSystem.execute f w) as [w1|] eqn:H1;
    simpl in Hw'; [|done].
  destruct (CalibrationSystem.execute f w1) as [w2|] eqn:H2;
    simpl in Hw'; [|done].
  destruct (ButtonSystem.execute f w2) as [w3|] eqn:H3;
    simpl in Hw'; [|done].
  apply forEach_pure in H1 as (Hg1 & _).
  rewrite calibration_execute in H2.
  apply forEach_pure in H2 as (Hg2 & _).
  apply forEach_pure in Hw' as (Hg4 & _).
  rewrite Hg4, <- Hg1, <- Hg2.
  unfold ButtonSystem.execute, forEach in H3. simpl in H3.
  match type of H3 with
  | context [forEach_from ?q ?cb 0 ?es ?g] =>
      destruct (forEach_from q cb 0 es g) as [r|] eqn:Hr; [|done];
      apply (@forEach_from_rel well_loaded well_loaded_refl
               well_loaded_trans) in Hr
  end.
  - simpl in H3. by simplify_eq.
  - intros i e g e' g' _ _. apply button_well_loaded.
Qed.

(** X9: in a wired world whose scene index is within the scene list, any
    sequence of frames succeeds, leaves the index within the list, and adds
    to the trace no load of a scene that does not exist: whatever the hands
    do, the viewer never asks for [scenes[i]] with [i] out of range. *)
Theorem scenes_always_defined (fs : list Frame) (w : World) :
  wired w →
  in_range (globals w) →
  ∃ w' evs,
    animate fs w = Some w'
    ∧ in_range (globals w')
    ∧ trace (globals w') = trace (globals w) ++ evs
    ∧ Forall defined_load evs.
Proof.
  intros Hw Hg.
  assert (∃ w', animate fs w = Some w'
                ∧ well_loaded (globals w) (globals w')) as (w' & Hrun & Hl).
  { clear Hg. revert w Hw. induction fs as [|f fs IH]; intros w Hw; simpl.
    - exists w. split; [done|apply well_loaded_refl].
    - destruct (frame_well_loaded f w Hw) as (w1 & -> & Hw1 & Hl1). simpl.
      destruct (IH w1 Hw1) as (w' & Hrun & Hl).
      exists w'. split; [done|]. by eapply well_loaded_trans. }
  destruct (Hl Hg) as (Hg' & evs & Ht & Hd). by exists w', evs.
Qed.

Lemma scenes_always_defined_witness :
  ∃ w' evs,
    animate Scenario.pressAndRelease Init.world = Some w'
    ∧ in_range (globals w')
    ∧ trace (globals w') = trace (globals Init.world) ++ evs
    ∧ Forall defined_load evs.
Proof.
  apply (scenes_always_defined Scenario.pressAndRelease Init.world).
  - split; [reflexivity|]. repeat constructor.
  - unfold in_range. simpl. lia.
Defined.

End Globals.

(** ** The actions a frame calls *)

Section Actions.

Lemma called_app (tr1 tr2 : list Event) :
  called (tr1 ++ tr2) = called tr1 ++ called tr2.
Proof. unfold called. by rewrite omap_app. Qed.

Lemma called_call (a : Action) (g : Globals) :
  called (trace (call a g)) = called (trace g).
Proof.
  destruct a; unfold call, nextScene, prevScene, loadScene, emit; simpl;
    rewrite ?called_app; simpl; by rewrite ?app_nil_r.
Qed.

Lemma scene_state_call (a : Action) (g1 g2 : Globals) :
  scene_state g1 = scene_state g2 →
  scene_state (call a g1) = scene_state (call a g2).
Proof.
  unfold scene_state. intros [= Hi Hv].
  destruct a; simpl; by rewrite ?Hi, ?Hv.
Qed.

Lemma scene_state_calls (l : list (nat * Action)) (g1 g2 : Globals) :
  scene_state g1 = scene_state g2 →
  scene_state (foldl (λ g ka, call ka.2 g) g1 l)
  = scene_state (foldl (λ g ka, call ka.2 g) g2 l).
Proof.
  revert g1 g2. induction l as [|ka l IH]; intros g1 g2 Hg; simpl; [done|].
  by apply IH, scene_state_call.
Qed.

Lemma button_calls (ps rs : option Audio) (k : nat) (e e' : Entity)
      (g g' : Globals) (b : Button) :
  ButtonSystem.on_entity ps rs k e g = Some (e', g') →
  cButton e = Some b →
  called (trace g')
  = called (trace g) ++ (if rising fully_pressed b then [(k, action b)] else [])
  ∧ scene_state g'
    = scene_state (if rising fully_pressed b then call (action b) g else g).
Proof.
  unfold ButtonSystem.on_entity, rising. intros Hcb Hb. rewrite Hb in Hcb.
  destruct (cObject3D e) as [m|]; [|done]. simpl in Hcb.
  destruct (restingY b), ps, rs; simpl in Hcb; simplify_eq;
    destruct (bool_decide (currState b = fully_pressed)
              && negb (bool_decide (prevState b = fully_pressed)));
    destruct (bool_decide (currState b = recovering)
              && negb (bool_decide (prevState b = recovering)));
    destruct (pressSound b), (releaseSound b);
    unfold emit; simpl; rewrite ?called_app, ?called_call; simpl;
    rewrite ?called_app, ?app_nil_r; simpl; (split; [done|]);
    try done; by apply scene_state_call.
Qed.

Lemma button_system_calls (ps rs : option Audio) (k0 : nat)
      (es : list Entity) (g : Globals) (r : list Entity * Globals) :
  forEach_from has_Button (ButtonSystem.on_entity ps rs) k0 es g = Some r →
  called (trace r.2) = called (trace g) ++ fired_from k0 es
  ∧ scene_state r.2
    = scene_state (foldl (λ g ka, call ka.2 g) g (fired_from k0 es)).
Proof.
  revert k0 g r. induction es as [|e0 es IH]; intros k0 g r Hr.
  - simpl in Hr. simplify_eq. simpl. by rewrite app_nil_r.
  - rewrite forEach_from_cons in Hr.
    destruct (if has_Button e0 then ButtonSystem.on_entity ps rs k0 e0 g
              else Some (e0, g)) as [[e0' g0]|] eqn:H0; simpl in Hr; [|done].
    destruct (forEach_from has_Button (ButtonSystem.on_entity ps rs)
                (S k0) es g0) as [rs0|] eqn:Hrs; simpl in Hr; [|done].
    simplify_eq. apply IH in Hrs as [Hc Hs]. simpl.
    assert (called (trace g0)
            = called (trace g)
              ++ match cButton e0 with
                 | Some b => if rising fully_pressed b
                             then [(k0, action b)] else []
                 | None => []
                 end
            ∧ scene_state g0
              = scene_state
                  (foldl (λ g ka, call ka.2 g) g
                     match cButton e0 with
                     | Some b => if rising fully_pressed b
                                 then [(k0, action b)] else []
                     | None => []
                     end)) as [Hc0 Hs0].
    { unfold has_Button in H0.
      destruct (cButton e0) as [b|] eqn:Hb.
      - rewrite bool_decide_eq_true_2 in H0 by (by eexists).
        destruct (button_calls _ _ _ _ _ _ _ b H0 Hb) as [-> ->].
        by destruct (rising fully_pressed b).
      - rewrite bool_decide_eq_false_2 in H0 by (by intros [? ?]).
        simplify_eq. simpl. by rewrite app_nil_r. }
    split.
    + by rewrite Hc, Hc0, app_assoc.
    + rewrite Hs, foldl_app. by apply scene_state_calls.
Qed.

Lemma fired_from_buttons (k : nat) (es1 es2 : list Entity) :
  Forall2 (λ e1 e2, cButton e1 = cButton e2) es1 es2 →
  fired_from k es1 = fired_from k es2.
Proof.
  intros H. revert k. induction H as [|e1 e2 es1 es2 Hb _ IH]; intros k;
    simpl; [done|]. by rewrite Hb, IH.
Qed.

Lemma same_buttons (w1 w2 : World) :
  length (entities w1) = length (entities w2) →
  (∀ k, button_at k w1 = button_at k w2) →
  Forall2 (λ e1 e2, cButton e1 = cButton e2) (entities w1) (entities w2).
Proof.
  intros Hlen Hb. apply Forall2_same_length_lookup. split; [done|].
  intros k e1 e2 He1 He2. specialize (Hb k).
  by rewrite (button_at_lookup k w1 e1 He1),
    (button_at_lookup k w2 e2 He2) in Hb.
Qed.

(** X10: in a wired world a frame calls the actions of exactly the buttons
    that [ButtonSystem] reads entering [fully_pressed], once each and in
    entity order; the scene index and the exit text it leaves are those of
    running these actions one after the other. *)
Theorem frame_calls_fired (f : Frame) (w : World) :
  wired w →
  ∃ w',
    World_execute f w = Some w'
    ∧ called (trace (globals w'))
      = called (trace (globals w)) ++ fired_from 0 (entities w)
    ∧ scene_state (globals w')
      = scene_state (foldl (λ g ka, call ka.2 g) (globals w)
                           (fired_from 0 (entities w))).
Proof.
  intros Hw. destruct (frame_step f w Hw) as (w' & Hw' & _).
  exists w'. split; [done|].
  destruct Hw as [Hsys Hwf].
  rewrite World_execute_wired in Hw' by done.
  destruct (instruction_step f w Hwf)
    as (w1 & H1 & _ & _ & Hg1 & Hwf1 & Hb1).
  rewrite H1 in Hw'. simpl in Hw'.
  destruct (calibration_step f w1 Hwf1)
    as (w2 & H2 & _ & _ & Hg2 & Hwf2 & Hb2).
  rewrite H2 in Hw'. simpl in Hw'.
  apply forEach_pure in H1 as (_ & _ & _ & Hl1 & _).
  rewrite calibration_execute in H2.
  apply forEach_pure in H2 as (_ & _ & _ & Hl2 & _).
  destruct (ButtonSystem.execute f w2) as [w3|] eqn:H3;
    simpl in Hw'; [|done].
  apply forEach_pure in Hw' as (Hg4 & _).
  assert (fired_from 0 (entities w2) = fired_from 0 (entities w)) as Hfired.
  { apply fired_from_buttons, same_buttons; [congruence|].
    intros k. by rewrite Hb2, Hb1. }
  unfold ButtonSystem.execute, forEach in H3. simpl in H3.
  match type of H3 with
  | context [forEach_from ?q ?cb 0 ?es ?g] =>
      destruct (forEach_from q cb 0 es g) as [r|] eqn:Hr; [|done];
      apply button_system_calls in Hr as [Hc Hs]
  end.
  simpl in H3. apply (inj Some) in H3. subst w3. simpl in Hg4.
  by rewrite Hg4, Hc, Hs, Hfired, Hg2, Hg1.
Qed.

Lemma frame_calls_fired_witness :
  ∃ w',
    World_execute Scenario.idle Cases.pressedWorld = Some w'
    ∧ called (trace (globals w')) = [(0%nat, obAction)]
    ∧ scene_state (globals w') = (0%Z, false).
Proof.
  destruct (frame_calls_fired Scenario.idle Cases.pressedWorld)
    as (w' & Hw' & Hc & Hs).
  - split; [reflexivity|]. repeat constructor.
  - by exists w'.
Defined.

End Actions.

(** ** InstructionSystem has no memory *)

Section Overwrite.

Lemma forEach_from_overwrite (q : Entity → bool)
      (h1 h2 : nat → Entity → option Entity) (k : nat) (es : list Entity)
      (g g' : Globals) (r : list Entity * Globals) :
  (∀ k e e', q e = true → h1 k e = Some e' →
             q e' = true ∧ h2 k e' = h2 k e) →
  forEach_from q (pure_callback h1) k es g = Some r →
  forEach_from q (pure_callback h2) k r.1 g'
  = forEach_from q (pure_callback h2) k es g'.
Proof.
  intros Hover. revert k g g' r.
  induction es as [|e0 es IH]; intros k g g' r Hr.
  - simpl in Hr. by simplify_eq.
  - rewrite forEach_from_cons in Hr.
    destruct (if q e0 then pure_callback h1 k e0 g else Some (e0, g))
      as [[e1 g1]|] eqn:H1; simpl in Hr; [|done].
    destruct (forEach_from q (pure_callback h1) (S k) es g1)
      as [rs|] eqn:Hrs; simpl in Hr; [|done].
    simplify_eq. cbn [fst]. rewrite !forEach_from_cons.
    assert ((if q e1 then pure_callback h2 k e1 g' else Some (e1, g'))
            = (if q e0 then pure_callback h2 k e0 g' else Some (e0, g')))
      as ->.
    { destruct (q e0) eqn:Hq; [|by simplify_eq; rewrite Hq].
      unfold pure_callback in H1. destruct (h1 k e0) as [e1'|] eqn:Hh;
        simplify_eq/=.
      destruct (Hover k e0 e1 Hq Hh) as [-> Hsame].
      unfold pure_callback. by rewrite Hsame. }
    destruct (if q e0 then pure_callback h2 k e0 g' else Some (e0, g'))
      as [[e2 g2]|]; simpl; [|done].
    by rewrite (IH (S k) g1 g2 rs Hrs).
Qed.

(** X11: what [InstructionSystem] leaves depends on the last frame only:
    running it for a frame after having run it for another frame gives the
    world that running it for the last frame alone gives. In particular,
    running it twice for the same frame is running it once. *)
Theorem instruction_last_frame_wins (f1 f2 : Frame) (w w1 : World) :
  InstructionSystem.execute f1 w = Some w1 →
  InstructionSystem.execute f2 w1 = InstructionSystem.execute f2 w
  ∧ InstructionSystem.execute f1 w1 = Some w1.
Proof.
  assert (∀ fa fb wa wb,
             InstructionSystem.execute fa wa = Some wb →
             InstructionSystem.execute fb wb
             = InstructionSystem.execute fb wa) as Hlast.
  { intros fa fb wa wb. unfold InstructionSystem.execute, forEach.
    intros Hwb.
    match type of Hwb with
    | context [forEach_from ?q ?cb 0 ?es ?g] =>
        destruct (forEach_from q cb 0 es g) as [r|] eqn:Hr; [|done]
    end.
    simpl in Hwb. simplify_eq. simpl.
    pose proof (forEach_from_pure_same _ _ _ _ _ _ Hr) as Hg.
    rewrite (λ H, forEach_from_overwrite _ _
               (λ _ e, InstructionSystem.on_entity
                         (InstructionSystem.anyVisible (controllers fb)) e)
               _ _ _ r.2 r H Hr), Hg; [done|].
    intros k e e' Hq. unfold InstructionSystem.on_entity.
    destruct (cObject3D e) as [o|] eqn:Ho; [|done]. simpl.
    intros [= <-]. simpl. split; [done|]. by destruct e. }
  intros H1. split; [by apply (Hlast f1)|].
  by rewrite (Hlast f1 f1 w w1 H1).
Qed.

Lemma instruction_last_frame_wins_witness :
  ∃ w1,
    InstructionSystem.execute Scenario.untracked Init.world = Some w1
    ∧ InstructionSystem.execute Scenario.oneVisible w1
      = InstructionSystem.execute Scenario.oneVisible Init.world.
Proof.
  destruct (InstructionSystem.execute Scenario.untracked Init.world)
    as [w1|] eqn:Hw1; [|by vm_compute in Hw1].
  exists w1. split; [done|].
  apply (instruction_last_frame_wins Scenario.untracked Scenario.oneVisible
           Init.world w1 Hw1).
Defined.

End Overwrite.

(** ** Calibration happens at the first frame with a session *)

Section FirstSession.

Local Open Scope float_scope.

(** A frame without a session takes no marker off, so it does not change
    which entities calibration reaches. *)
Lemma frame_keeps_reached (f : Frame) (w w' : World) (k : nat) :
  executeSystems w = executeSystems Init.world →
  session f = false →
  World_execute f w = Some w' →
  reached k (entities w') = reached k (entities w).
Proof.
  intros Hsys Hs Hw'.
  destruct (frame_lookup f w w' Hsys Hw') as (Hlen & _ & _ & Hk).
  unfold reached. f_equal. apply marked_before_same.
  apply Forall2_same_length_lookup. split; [done|].
  intros i e' e He' He. specialize (Hk i). rewrite He, He' in Hk.
  simpl in Hk. symmetry in Hk.
  apply entity_frame_keeps in Hk as (_ & _ & -> & _).
  rewrite Hs. simpl. by rewrite andb_true_r.
Qed.

Lemma animate_keeps_reached (fs : list Frame) (w w' : World) (k : nat) :
  executeSystems w = executeSystems Init.world →
  Forall (λ f, session f = false) fs →
  animate fs w = Some w' →
  reached k (entities w') = reached k (entities w).
Proof.
  intros Hsys Hfs. revert w Hsys.
  induction Hfs as [|f fs Hf _ IH]; intros w Hsys Hrun; simpl in Hrun.
  - by simplify_eq.
  - destruct (World_execute f w) as [w1|] eqn:Hw1; simpl in Hrun; [|done].
    destruct (frame_lookup f w w1 Hsys Hw1) as (_ & Hsys1 & _).
    rewrite (IH w1 (eq_trans Hsys1 Hsys) Hrun).
    by apply (frame_keeps_reached f).
Qed.

(** Where the frame leaves an entity that is not pressable. *)
Lemma entity_frame_position (f : Frame) (c r : bool) (k : nat)
      (e e' : Entity) (o : Mesh) :
  entity_frame f c r k e = Some e' →
  cPressable e = false →
  cObject3D e = Some o →
  position <$> cObject3D e'
  = Some (if cNeedCalibration e && session f && r
          then match cOffsetFromCamera e with
               | Some offset => calibrated f offset
               | None => position o
               end
          else position o).
Proof.
  unfold entity_frame, has_Button, calibrated,
    InstructionSystem.on_entity, CalibrationSystem.on_entity,
    ButtonSystem.on_entity.
  destruct e as [o0 b p t off n]. simpl. intros He' -> ->.
  destruct b as [b|], t, off as [off|], n, (session f), r;
    simpl in He'; by simplify_eq.
Qed.

(** X12: in a wired world, an entity that carries the calibration marker
    and an offset, is not pressable, and is reached by calibration (as the
    console of [init] is) stays where it is, marker on, as long as the
    frames have no session; the first frame with a session puts it at the
    camera position of that frame plus the offset and takes the marker off;
    and whatever the later frames read (the head moving, hands pressing),
    it stays at that position with the marker off. *)
Theorem calibrated_at_first_session (fs1 fs2 : list Frame) (f : Frame)
        (w : World) (k : nat) (e : Entity) (offset : OffsetFromCamera)
        (o : Mesh) :
  wired w →
  entities w !! k = Some e →
  cNeedCalibration e = true →
  cOffsetFromCamera e = Some offset →
  cObject3D e = Some o →
  cPressable e = false →
  reached k (entities w) = true →
  Forall (λ f, session f = false) fs1 →
  session f = true →
  (∃ w1 e1,
      animate fs1 w = Some w1
      ∧ entities w1 !! k = Some e1
      ∧ position <$> cObject3D e1 = Some (position o)
      ∧ cNeedCalibration e1 = true)
  ∧ (∃ w' e',
        animate (fs1 ++ f :: fs2) w = Some w'
        ∧ entities w' !! k = Some e'
        ∧ position <$> cObject3D e' = Some (calibrated f offset)
        ∧ cNeedCalibration e' = false).
Proof.
  intros Hw He Hn Hoff Ho Hp Hreach Hfs1 Hf.
  destruct (animate_total fs1 w Hw) as (w1 & Hrun1 & Hw1).
  destruct (frame_step f w1 Hw1) as (w2 & Hrun2 & Hw2 & _).
  destruct (animate_total fs2 w2 Hw2) as (w' & Hrun3 & _).
  destruct (animate_entity_invariant_on
              (λ f, session f = false)
              (λ e0, cNeedCalibration e0 = true
                     ∧ cOffsetFromCamera e0 = Some offset
                     ∧ cPressable e0 = false
                     ∧ position <$> cObject3D e0 = Some (position o))
              fs1 w w1 k e) as (e1 & He1 & Hn1 & Hoff1 & Hp1 & Hpos1);
    [|done|apply Hw|done|done|by rewrite Ho|].
  { intros f0 c r e0 e0' Hs (Hn0 & Hoff0 & Hp0 & Hpos0) Hstep.
    destruct (cObject3D e0) as [o0|] eqn:Ho0; [|done].
    pose proof (entity_frame_position _ _ _ _ _ _ _ Hstep Hp0 Ho0) as Hpos.
    apply entity_frame_keeps in Hstep as (Hc & Hoff' & Hn' & _).
    rewrite Hn0, Hs in *. simpl in *. simplify_eq.
    split; [done|]. split; [congruence|]. split; [|by rewrite Hpos, Hpos0].
    unfold components in Hc. congruence. }
  split; [by exists w1, e1|].
  destruct (frame_lookup f w1 w2 (proj1 Hw1) Hrun2)
    as (Hlen & _ & _ & Hk).
  specialize (Hk k).
  rewrite He1, (animate_keeps_reached fs1 w w1 k (proj1 Hw) Hfs1 Hrun1),
    Hreach in Hk.
  simpl in Hk. symmetry in Hk.
  destruct (entities w2 !! k) as [e2|] eqn:He2;
    [|apply lookup_ge_None in He2; apply lookup_lt_Some in He1; lia].
  destruct (cObject3D e1) as [o1|] eqn:Ho1; [|done].
  pose proof (entity_frame_position _ _ _ _ _ _ _ Hk Hp1 Ho1) as Hpos2.
  pose proof (entity_frame_keeps _ _ _ _ _ _ Hk) as (Hc2 & _ & Hn2 & _).
  rewrite Hn1, Hoff1, Hf in *. simpl in *.
  destruct (animate_entity_invariant_on
              (λ _, True)
              (λ e0, cNeedCalibration e0 = false
                     ∧ cPressable e0 = false
                     ∧ position <$> cObject3D e0
                       = Some (calibrated f offset))
              fs2 w2 w' k e2) as (e' & He' & Hn' & _ & Hpos');
    [|by apply Forall_true|apply Hw2|done|done| |].
  { intros f0 c r e0 e0' _ (Hn0 & Hp0 & Hpos0) Hstep.
    destruct (cObject3D e0) as [o0|] eqn:Ho0; [|done].
    pose proof (entity_frame_position _ _ _ _ _ _ _ Hstep Hp0 Ho0) as Hpos.
    apply entity_frame_keeps in Hstep as (Hc & _ & Hn0' & _).
    rewrite Hn0 in *. simpl in *. simplify_eq.
    split; [done|]. split; [|by rewrite Hpos, Hpos0].
    unfold components in Hc. congruence. }
  { split; [done|]. split; [|done]. unfold components in Hc2. congruence. }
  exists w', e'. rewrite animate_app, Hrun1. simpl. rewrite Hrun2. simpl.
  by repeat split.
Qed.

Lemma calibrated_at_first_session_witness :
  ∃ w' e',
    animate ([Scenario.untracked; Scenario.untracked]
               ++ Scenario.idle :: Scenario.pressAndRelease) Init.world
    = Some w'
    ∧ entities w' !! 0%nat = Some e'
    ∧ position <$> cObject3D e'
      = Some (calibrated Scenario.idle (mkOffset 0 (-0.4) (-0.3)))
    ∧ cNeedCalibration e' = false.
Proof.
  apply (calibrated_at_first_session
           [Scenario.untracked; Scenario.untracked] Scenario.pressAndRelease
           Scenario.idle Init.world 0 Init.csEntity
           (mkOffset 0 (-0.4) (-0.3)) Init.consoleMesh).
  - split; [reflexivity|]. repeat constructor.
  - reflexivity.
  - reflexivity.
  - reflexivity.
  - reflexivity.
  - reflexivity.
  - reflexivity.
  - repeat constructor.
  - reflexivity.
Defined.

End FirstSession.

(** ** The sounds *)

Section Sounds.

Lemma entity_frame_sounds (f : Frame) (c r : bool) (k : nat)
      (e e' : Entity) (b : Button) :
  entity_frame f c r k e = Some e' →
  cButton e = Some b →
  ∃ b',
    cButton e' = Some b'
    ∧ pressSound b' = (if c then Some buttonPressSound else pressSound b)
    ∧ releaseSound b'
      = (if c then Some buttonReleaseSound else releaseSound b).
Proof.
  unfold entity_frame, has_Button,
    InstructionSystem.on_entity, CalibrationSystem.on_entity,
    ButtonSystem.on_entity, FingerInputSystem.on_entity.
  destruct e as [o b0 p t off n]. simpl. intros He' ->.
  destruct o as [o|], p, t, off as [off|], n, (session f), r;
    cbn -[FingerInputSystem.press] in He'; try done;
    repeat match goal with
           | H : context [FingerInputSystem.press ?dt ?hs ?b0 ?o0] |- _ =>
               let s := fresh "s" in
               let Hs := fresh "Hs" in
               destruct (press_button dt hs b0 o0) as [s Hs];
               destruct (FingerInputSystem.press dt hs b0 o0);
               simpl in Hs; subst
           end;
    simplify_eq; cbn; eexists; (split; [done|]);
    by destruct (restingY b), c.
Qed.

(** X13: in a wired world, over any sequence of frames, [soundAdded] is set
    by the first frame with a session and never reset. If the sounds are
    created during these frames, the button at index k ends with the two
    sounds [ButtonSystem] created; if they are not (no frame has a session,
    or they were created before), its sounds are exactly what they were. *)
Theorem sounds_bound_once (fs : list Frame) (w : World) (k : nat)
        (e : Entity) (b : Button) :
  wired w →
  entities w !! k = Some e →
  cButton e = Some b →
  ∃ w' e' b',
    animate fs w = Some w'
    ∧ entities w' !! k = Some e'
    ∧ cButton e' = Some b'
    ∧ soundAdded w' = soundAdded w || existsb session fs
    ∧ if negb (soundAdded w) && existsb session fs
      then pressSound b' = Some buttonPressSound
           ∧ releaseSound b' = Some buttonReleaseSound
      else pressSound b' = pressSound b ∧ releaseSound b' = releaseSound b.
Proof.
  revert w e b. induction fs as [|f fs IH]; intros w e b Hw He Hb; simpl.
  - exists w, e, b. rewrite orb_false_r, andb_false_r. by repeat split.
  - destruct (frame_step f w Hw) as (w1 & Hw1 & Hwired1 & _).
    rewrite Hw1. simpl.
    destruct (frame_lookup f w w1 (proj1 Hw) Hw1)
      as (Hlen & _ & Hsound & Hk).
    specialize (Hk k). rewrite He in Hk. simpl in Hk. symmetry in Hk.
    destruct (entities w1 !! k) as [e1|] eqn:He1;
      [|apply lookup_ge_None in He1; apply lookup_lt_Some in He; lia].
    destruct (entity_frame_sounds _ _ _ _ _ _ b Hk Hb)
      as (b1 & Hb1 & Hp1 & Hr1).
    destruct (IH w1 e1 b1 Hwired1 He1 Hb1)
      as (w' & e' & b' & Hrun & He' & Hb' & Hs' & Hsounds).
    exists w', e', b'. split; [done|]. split; [done|]. split; [done|].
    rewrite Hs', Hsound, Hp1, Hr1 in *. clear Hs' Hsound Hp1 Hr1.
    destruct (soundAdded w), (session f), (existsb session fs);
      simpl in *; destruct Hsounds; by repeat split.
Qed.

Lemma sounds_bound_once_witness :
  ∃ w' e' b',
    animate [Scenario.untracked; Scenario.idle; Scenario.untracked] Init.world
    = Some w'
    ∧ entities w' !! 1%nat = Some e'
    ∧ cButton e' = Some b'
    ∧ soundAdded w' = true
    ∧ pressSound b' = Some buttonPressSound
    ∧ releaseSound b' = Some buttonReleaseSound.
Proof.
  destruct (sounds_bound_once
              [Scenario.untracked; Scenario.idle; Scenario.untracked]
              Init.world 1 Init.obEntity
              (Init.newButton obAction 0.05 0.4 0.02))
    as (w' & e' & b' & Hrun & He' & Hb' & Hs & Hp & Hr).
  - split; [reflexivity|]. repeat constructor.
  - reflexivity.
  - reflexivity.
  - exists w', e', b'. split; [exact Hrun|]. split; [exact He'|].
    split; [exact Hb'|]. split; [exact Hs|]. split; [exact Hp|exact Hr].
Defined.

End Sounds.

(** ** The distances a step collects *)

Lemma length_omap_fmap {A B : Type} (g : A → B) (l : list (option A)) :
  length (omap (fmap g) l) = length (filter is_Some l).
Proof.
  induction l as [|[a|] l IH]; [done| |].
  - rewrite filter_cons_True by (by eexists). simpl. f_equal. exact IH.
  - rewrite filter_cons_False by (by intros [? ?]). exact IH.
Qed.

(** X14: the loop over the hands collects one distance per intersecting
    hand, in the order of the hands, each the button's [surfaceY] minus the
    local height of the fingertip; so never more distances than hands, and
    none exactly when no hand intersects. *)
Theorem pressing_distances_collected (b : Button) (hs : list HandReading) :
  FingerInputSystem.pressingDistances b hs
  = omap (λ h : HandReading,
            (λ ly, (JS.ToNumber (surfaceY b) - ly)%float) <$> h) hs
  ∧ length (FingerInputSystem.pressingDistances b hs)
    = length (filter is_Some hs)
  ∧ length (FingerInputSystem.pressingDistances b hs) ≤ length hs
  ∧ (FingerInputSystem.pressingDistances b hs = [] ↔ no_contact hs).
Proof.
  split; [apply pressingDistances_omap|].
  assert (length (FingerInputSystem.pressingDistances b hs)
          = length (filter is_Some hs)) as Hlen.
  { rewrite pressingDistances_omap. apply length_omap_fmap. }
  split; [done|]. split; [|apply pressingDistances_nil].
  rewrite Hlen. apply length_filter.
Qed.

(** ** The live query of CalibrationSystem *)

Section LiveQuery.

(** Entities that lose the marker exactly where an iteration that starts
    with [s] reaches them: half of the marked ones stay marked. *)
Lemma marked_halved (s : bool) (es es' : list Entity) :
  length es' = length es →
  (∀ k e e', es !! k = Some e → es' !! k = Some e' →
             cNeedCalibration e'
             = cNeedCalibration e
               && negb (xorb (Nat.even (marked_before k es)) s)) →
  marked_before (length es') es'
  = Nat.div2 (marked_before (length es) es + (if s then 1 else 0)).
Proof.
  revert es' s. induction es as [|e0 es IH]; intros [|e0' es'] s Hlen Hmk;
    try done.
  - by destruct s.
  - simpl in Hlen. injection Hlen as Hlen.
    pose proof (Hmk 0 e0 e0' eq_refl eq_refl) as H0.
    rewrite marked_before_0 in H0. change (Nat.even 0) with true in H0.
    change (xorb true s) with (negb s) in H0.
    rewrite negb_involutive in H0.
    cbn [length]. rewrite !marked_before_S, H0.
    rewrite (IH es' (if cNeedCalibration e0 then negb s else s) Hlen).
    + destruct (cNeedCalibration e0), s; cbn [andb negb];
        rewrite ?Nat.add_0_r, ?Nat.add_0_l; try done.
      * by rewrite Nat.add_1_r.
      * by rewrite Nat.add_1_r.
    + intros k e e' He He'.
      rewrite (Hmk (S k) e e' He He'), marked_before_S.
      destruct (cNeedCalibration e0); [|done].
      change (1 + marked_before k es) with (S (marked_before k es)).
      rewrite Nat.even_succ, <- Nat.negb_even.
      by destruct (Nat.even _), s.
Qed.

Lemma unmarked_all (es : list Entity) :
  marked_before (length es) es = 0 →
  Forall (λ e, cNeedCalibration e = false) es.
Proof.
  induction es as [|e es IH]; [by constructor|].
  cbn [length]. rewrite marked_before_S. intros Hm.
  destruct (cNeedCalibration e) eqn:Hn; [done|].
  constructor; [done|]. by apply IH.
Qed.

(** X15: in a frame with a session [CalibrationSystem] takes the marker off
    exactly the entities it reaches: a marked entity with an odd number of
    marked entities before it is passed over and left as it is, marker on,
    and so are the entities without the marker. Of [n] marked entities,
    [n / 2] (rounded down) are still marked after the frame. *)
Theorem calibration_every_second (f : Frame) (w w' : World) :
  session f = true →
  CalibrationSystem.execute f w = Some w' →
  (∀ k e, entities w !! k = Some e →
          cNeedCalibration e && reached k (entities w) = false →
          entities w' !! k = Some e)
  ∧ (∀ k e e', entities w !! k = Some e → entities w' !! k = Some e' →
               cNeedCalibration e'
               = cNeedCalibration e && negb (reached k (entities w)))
  ∧ marked w' = Nat.div2 (marked w).
Proof.
  intros Hs Hw'. rewrite calibration_execute in Hw'.
  apply forEach_pure in Hw' as (_ & _ & _ & Hlen & Hlook).
  assert (∀ k e e', entities w !! k = Some e → entities w' !! k = Some e' →
                    cNeedCalibration e'
                    = cNeedCalibration e && negb (reached k (entities w)))
    as Hmarks.
  { intros k e e' He He'. destruct (Hlook k e He) as (e'' & He'' & Hq).
    simplify_eq. unfold calibrate_reached in Hq.
    destruct (cNeedCalibration e) eqn:Hn; [|by subst].
    destruct (reached k (entities w)); [|by simplify_eq].
    by apply (calibration_removes f e e' Hs). }
  split; [|split; [done|]].
  - intros k e He Hpass. destruct (Hlook k e He) as (e' & He' & Hq).
    unfold calibrate_reached in Hq.
    destruct (cNeedCalibration e); [|by subst].
    simpl in Hpass. rewrite Hpass in Hq. by simplify_eq.
  - unfold marked. rewrite (marked_halved false _ _ Hlen).
    + by rewrite Nat.add_0_r.
    + intros k e e' He He'. rewrite xorb_false_r. by apply Hmarks.
Qed.

Lemma calibration_every_second_witness :
  ∃ w',
    CalibrationSystem.execute Scenario.idle Cases.threeConsoles = Some w'
    ∧ entities w' !! 6%nat = Some Init.csEntity
    ∧ marked w' = 1.
Proof.
  destruct (CalibrationSystem.execute Scenario.idle Cases.threeConsoles)
    as [w'|] eqn:Hw'; [|by vm_compute in Hw'].
  destruct (calibration_every_second Scenario.idle Cases.threeConsoles w'
              eq_refl Hw') as (Hpass & _ & Hcount).
  exists w'. split; [reflexivity|]. split; [|exact Hcount].
  apply (Hpass 6 Init.csEntity); reflexivity.
Defined.

(** What a whole frame does to the markers. *)
Lemma frame_marks (f : Frame) (w w' : World) :
  executeSystems w = executeSystems Init.world →
  World_execute f w = Some w' →
  marked w' = if session f then Nat.div2 (marked w) else marked w.
Proof.
  intros Hsys Hw'.
  destruct (frame_lookup f w w' Hsys Hw') as (Hlen & _ & _ & Hk).
  assert (∀ k e e', entities w !! k = Some e → entities w' !! k = Some e' →
                    cNeedCalibration e'
                    = cNeedCalibration e
                      && negb (session f && reached k (entities w)))
    as Hmarks.
  { intros k e e' He He'. specialize (Hk k). rewrite He, He' in Hk.
    simpl in Hk. symmetry in Hk.
    by apply entity_frame_keeps in Hk as (_ & _ & -> & _). }
  unfold marked. destruct (session f).
  - rewrite (marked_halved false _ _ Hlen).
    + by rewrite Nat.add_0_r.
    + intros k e e' He He'. rewrite xorb_false_r. by apply Hmarks.
  - rewrite Hlen. apply marked_before_same.
    apply Forall2_same_length_lookup. split; [done|].
    intros k e' e He' He. rewrite (Hmarks k e e' He He'). simpl.
    by rewrite andb_true_r.
Qed.

Lemma div2_lt_pow (m n : nat) : m < 2 ^ S n → Nat.div2 m < 2 ^ n.
Proof.
  intros Hm. pose proof (Nat.div2_odd m) as Hodd.
  rewrite Nat.pow_succ_r' in Hm. destruct (Nat.odd m); simpl in Hodd; lia.
Qed.

(** X16: calibration is delayed by the live query, never lost: in a wired
    world with [n] marked entities, after frames with a session, more than
    the binary logarithm of [n] of them, no entity carries the marker any
    more. For the world of [init], with its one console, one frame is
    enough. *)
Theorem calibration_completes (fs : list Frame) (w : World) :
  wired w →
  Forall (λ f, session f = true) fs →
  marked w < 2 ^ length fs →
  ∃ w',
    animate fs w = Some w'
    ∧ Forall (λ e, cNeedCalibration e = false) (entities w').
Proof.
  intros Hw Hfs. revert w Hw.
  induction Hfs as [|f fs Hf _ IH]; intros w Hw Hm.
  - exists w. split; [done|]. apply unmarked_all.
    unfold marked in Hm. simpl in Hm. lia.
  - destruct (frame_step f w Hw) as (w1 & Hw1 & Hwired1 & _).
    pose proof (frame_marks f w w1 (proj1 Hw) Hw1) as Hm1.
    rewrite Hf in Hm1. simpl. rewrite Hw1. simpl.
    apply IH; [done|]. rewrite Hm1. by apply div2_lt_pow.
Qed.

Lemma calibration_completes_witness :
  ∃ w',
    animate [Scenario.idle; Cases.touchNext] Cases.threeConsoles = Some w'
    ∧ Forall (λ e, cNeedCalibration e = false) (entities w').
Proof.
  apply (calibration_completes [Scenario.idle; Cases.touchNext]
           Cases.threeConsoles).
  - split; [reflexivity|]. repeat constructor.
  - repeat constructor.
  - vm_compute. lia.
Defined.

(** X17: the callbacks of the three other systems leave every entity in the
    query they iterate over, so for them the live iteration visits every
    entity of the query: it is the plain one. *)
Theorem other_queries_stable (f : Frame) (ps rs : option Audio) (w : World) :
  forEach_live has_Button (ButtonSystem.on_entity ps rs) w
  = forEach has_Button (ButtonSystem.on_entity ps rs) w
  ∧ forEach_live cPressable
      (pure_callback
         (λ k e, FingerInputSystem.on_entity (delta f) (hands f k) e)) w
    = FingerInputSystem.execute f w
  ∧ forEach_live cHandsInstructionText
      (pure_callback
         (λ _ e, InstructionSystem.on_entity
                   (InstructionSystem.anyVisible (controllers f)) e)) w
    = InstructionSystem.execute f w.
Proof.
  unfold FingerInputSystem.execute, InstructionSystem.execute, forEach_live,
    forEach.
  split; [|split]; rewrite forEach_live_from_stable; try done.
  - intros j e g [e' g'] He. unfold ButtonSystem.on_entity.
    destruct (cButton e) as [b|]; [|done].
    destruct (cObject3D e) as [o|]; [|done]. simpl. by intros [= <- _].
  - intros j e g [e' g'] He. rewrite pure_callback_eq.
    unfold FingerInputSystem.on_entity.
    destruct (cButton e) as [b|]; [|done].
    destruct (cObject3D e) as [o|]; [|done]. simpl.
    destruct (FingerInputSystem.press _ _ b o). simpl. by intros [= <- _].
  - intros j e g [e' g'] He. rewrite pure_callback_eq.
    unfold InstructionSystem.on_entity.
    destruct (cObject3D e) as [o|]; [|done]. simpl. by intros [= <- _].
Qed.

End LiveQuery.

